(** * st3-gitblame: the "blame all" command ([src/blame_all.py])

    A shallow embedding of [BlameShowAll], [BlameEraseAll] and
    [BlameEraseAllListener], and of the part of Python's [re] engine that
    the blame pattern exercises, followed by the properties of the parser,
    the mapper and the display state.

    Conventions.
    - A Python [str] is a [list ascii]; a character is its code point, for
      the code points U+0000 to U+00FF.  The character classes below are
      the ones Python 3 uses for [str] patterns, restricted to that range.
    - A Python [int] is a [Z].
    - An exception is a value of [exn]; code that may raise returns a
      [result]. *)

From Stdlib Require Import Ascii String ZArith NArith Lia Bool List.
Import ListNotations.

(** ** Strings *)

Definition str := list ascii.

Definition lit (s : string) : str := list_ascii_of_string s.

Definition code (a : ascii) : N := N_of_ascii a.

Definition in_range (lo hi : N) (a : ascii) : bool :=
  (lo <=? code a)%N && (code a <=? hi)%N.

Definition is_char (c a : ascii) : bool := Ascii.eqb a c.

(** [len(s)] *)
Definition len (s : str) : Z := Z.of_nat (length s).

(** [s * n] on strings: the empty string when [n <= 0]. *)
Definition str_mul (s : str) (n : Z) : str := concat (repeat s (Z.to_nat n)).

(** One or more characters, all of the set [p]. *)
Definition run_of (p : ascii -> bool) (s : str) : bool :=
  match s with
  | [] => false
  | _ :: _ => forallb p s
  end.

(** ** Character classes of [re] on [str] patterns *)

(** [\s]: [str.isspace] characters. *)
Definition is_space (a : ascii) : bool :=
  in_range 9 13 a || in_range 28 32 a || is_char "133" a || is_char "160" a.

(** [\d]: decimal digits. *)
Definition is_digit (a : ascii) : bool := in_range 48 57 a.

(** [\w]: [str.isalnum] characters and the underscore. *)
Definition is_word (a : ascii) : bool :=
  in_range 48 57 a || in_range 65 90 a || in_range 97 122 a || is_char "_" a
  || is_char "170" a || in_range 178 179 a || is_char "181" a
  || in_range 185 186 a || in_range 188 190 a
  || in_range 192 214 a || in_range 216 246 a || in_range 248 255 a.

(** [.] without [re.DOTALL]: anything but a newline. *)
Definition is_dot (a : ascii) : bool := negb (is_char "010" a).

(** [[\S ]]: a non-whitespace character, or a space. *)
Definition is_file_char (a : ascii) : bool := negb (is_space a) || is_char " " a.

(** [[\+-]] *)
Definition is_sign (a : ascii) : bool := is_char "+" a || is_char "-" a.

(** ** Regular expressions

    The fragment of [re] syntax the blame pattern is written in: the
    start anchor, one character of a set, a repetition of a set (greedy or
    lazy, [lo] to [hi] times, [hi = None] for no upper bound),
    concatenation, and capture groups (named or not). *)

Inductive regex : Type :=
| Bol : regex
| Chr : (ascii -> bool) -> regex
| Rep : bool -> nat -> option nat -> (ascii -> bool) -> regex
| Cat : regex -> regex -> regex
| Grp : option string -> regex -> regex.

(** The groups of a match, by name: what [groupdict()] returns.  The most
    recently closed group comes first. *)
Definition dict := list (string * str).

Fixpoint dict_get (d : dict) (key : string) : option str :=
  match d with
  | [] => None
  | (k, v) :: d' => if String.eqb k key then Some v else dict_get d' key
  end.

Definition bind_group (name : option string) (v : str) (d : dict) : dict :=
  match name with
  | Some n => (n, v) :: d
  | None => d
  end.

(** A continuation receives the position reached, the text left and the
    groups closed so far. *)
Definition cont := nat -> str -> dict -> option dict.

Definition hi_open (hi : option nat) : bool :=
  match hi with
  | Some 0 => false
  | _ => true
  end.

Definition hi_pred (hi : option nat) : option nat := option_map pred hi.

Definition at_least (lo : nat) (k : cont) : cont :=
  fun pos s d => if Nat.eqb lo 0 then k pos s d else None.

(** Greedy repetition of a set: the longest run first, then shorter ones. *)
Fixpoint rep_greedy (p : ascii -> bool) (lo : nat) (hi : option nat)
    (pos : nat) (s : str) (d : dict) (k : cont) : option dict :=
  match s with
  | a :: s' =>
      if p a && hi_open hi then
        match rep_greedy p (pred lo) (hi_pred hi) (S pos) s' d k with
        | Some r => Some r
        | None => at_least lo k pos s d
        end
      else at_least lo k pos s d
  | [] => at_least lo k pos s d
  end.

(** Lazy repetition of a set: the shortest run first, then longer ones. *)
Fixpoint rep_lazy (p : ascii -> bool) (lo : nat) (hi : option nat)
    (pos : nat) (s : str) (d : dict) (k : cont) : option dict :=
  match at_least lo k pos s d with
  | Some r => Some r
  | None =>
      match s with
      | a :: s' =>
          if p a && hi_open hi
          then rep_lazy p (pred lo) (hi_pred hi) (S pos) s' d k
          else None
      | [] => None
      end
  end.

(** The backtracking matcher: [exec r pos s d k] matches [r] at position
    [pos], where the text left is [s], and hands every way of matching it,
    in priority order, to [k] until one succeeds. *)
Fixpoint exec (r : regex) (pos : nat) (s : str) (d : dict) (k : cont)
    : option dict :=
  match r with
  | Bol => if Nat.eqb pos 0 then k pos s d else None
  | Chr p =>
      match s with
      | a :: s' => if p a then k (S pos) s' d else None
      | [] => None
      end
  | Rep greedy lo hi p =>
      if greedy then rep_greedy p lo hi pos s d k
      else rep_lazy p lo hi pos s d k
  | Cat r1 r2 => exec r1 pos s d (fun pos' s' d' => exec r2 pos' s' d' k)
  | Grp name r1 =>
      exec r1 pos s d
        (fun pos' s' d' => k pos' s' (bind_group name (firstn (pos' - pos) s) d'))
  end.

(** [pattern.match(s)]: a match at position 0, or [None]. *)
Definition re_match (r : regex) (s : str) : option dict :=
  exec r 0 s [] (fun _ _ d => Some d).

(** ** Exceptions *)

Inductive exn : Type :=
| AttributeError : exn
| KeyError : string -> exn
| ValueError : exn
| ToolError : str -> exn.

Inductive result (A : Type) : Type :=
| Ret : A -> result A
| Raise : exn -> result A.

Arguments Ret {A} _.
Arguments Raise {A} _.

(** ** The error monad of code that may raise *)

Definition bind {A B : Type} (m : result A) (k : A -> result B) : result B :=
  match m with
  | Ret a => k a
  | Raise e => Raise e
  end.

Notation "x <- m ;; k" := (bind m (fun x => k))
  (at level 61, m at next level, right associativity).

Fixpoint mapM {A B : Type} (f : A -> result B) (l : list A) : result (list B) :=
  match l with
  | [] => Ret []
  | a :: l' => b <- f a ;; bs <- mapM f l' ;; Ret (b :: bs)
  end.

(** ** Python built-ins used by the command *)

(** [d[key]] *)
Definition dict_item (d : dict) (key : string) : result str :=
  match dict_get d key with
  | Some v => Ret v
  | None => Raise (KeyError key)
  end.

(** Truth value of a dict: non-empty. *)
Definition truthy (d : dict) : bool :=
  match d with
  | [] => false
  | _ :: _ => true
  end.

Definition digit_value (a : ascii) : Z := (Z.of_N (code a) - 48)%Z.

(** [int(s)] on a string of decimal digits, the only strings the
    [line_number] group yields; anything else is reported as [ValueError]. *)
Definition decimal (s : str) : Z :=
  fold_left (fun n a => (10 * n + digit_value a)%Z) s 0%Z.

Definition py_int (s : str) : result Z :=
  if run_of is_digit s then Ret (decimal s) else Raise ValueError.

(** [max(xs)]: [ValueError] on an empty sequence. *)
Definition py_max (xs : list Z) : result Z :=
  match xs with
  | [] => Raise ValueError
  | x :: xs' => Ret (fold_left Z.max xs' x)
  end.

(** Line boundaries of [str.splitlines]. *)
Definition is_linebreak (a : ascii) : bool :=
  in_range 10 13 a || in_range 28 30 a || is_char "133" a.

(** [s.splitlines()]: [cur] holds the current line, reversed. *)
Fixpoint splitlines_from (cur : str) (s : str) : list str :=
  match s with
  | [] =>
      match cur with
      | [] => []
      | _ :: _ => [rev cur]
      end
  | a :: s' =>
      if is_linebreak a then
        rev cur ::
        match s' with
        | b :: s'' =>
            if is_char "013" a && is_char "010" b
            then splitlines_from [] s''
            else splitlines_from [] s'
        | [] => splitlines_from [] s'
        end
      else splitlines_from (a :: cur) s'
  end.

Definition splitlines (s : str) : list str := splitlines_from [] s.

(** ** The editor

    What the command reads and writes through the host API: the view's
    file name, the verdict of [util.view_is_suitable], the phantoms under
    [PHANTOM_KEY_ALL], the view setting [SETTING_PHANTOM_ALL_DISPLAYED]
    ([None] when absent), the viewport position, and what was reported to
    the user or run as a subprocess, most recent first.

    A phantom holds the row handed to [get_line_point] (the host turns it
    into the region of that line) and the arguments of the HTML template. *)

Record phantom : Type := Phantom {
  ph_line : Z;
  ph_sha : str;
  ph_user : str;
  ph_date : str;
  ph_time : str
}.

Inductive report : Type :=
| ReportExn : exn -> report
| ReportMsg : str -> report.

Record editor : Type := Editor {
  file_name : str;
  suitable : bool;
  phantoms : list phantom;
  displayed : option bool;
  viewport : Z * Z;
  errors : list report;
  status : list str;
  calls : list (list str * str)
}.

Definition view_is_suitable (ed : editor) : bool := suitable ed.

(** [view.erase_phantoms(PHANTOM_KEY_ALL)] *)
Definition erase_phantoms (ed : editor) : editor :=
  Editor (file_name ed) (suitable ed) [] (displayed ed) (viewport ed)
         (errors ed) (status ed) (calls ed).

(** [self.phantom_set.update(ps)]: the view shows exactly [ps]. *)
Definition phantom_set_update (ps : list phantom) (ed : editor) : editor :=
  Editor (file_name ed) (suitable ed) ps (displayed ed) (viewport ed)
         (errors ed) (status ed) (calls ed).

(** [view.settings().get(SETTING_PHANTOM_ALL_DISPLAYED, False)] *)
Definition settings_get (ed : editor) : bool :=
  match displayed ed with
  | Some b => b
  | None => false
  end.

(** [view.settings().set(SETTING_PHANTOM_ALL_DISPLAYED, b)] *)
Definition settings_set (b : bool) (ed : editor) : editor :=
  Editor (file_name ed) (suitable ed) (phantoms ed) (Some b) (viewport ed)
         (errors ed) (status ed) (calls ed).

(** [view.settings().erase(SETTING_PHANTOM_ALL_DISPLAYED)] *)
Definition settings_erase (ed : editor) : editor :=
  Editor (file_name ed) (suitable ed) (phantoms ed) None (viewport ed)
         (errors ed) (status ed) (calls ed).

(** [view.set_viewport_position((0.0, view.viewport_position()[1]))] *)
Definition scroll_left (ed : editor) : editor :=
  Editor (file_name ed) (suitable ed) (phantoms ed) (displayed ed)
         (0%Z, snd (viewport ed)) (errors ed) (status ed) (calls ed).

(** [util.communicate_error(e)] *)
Definition communicate_error (e : report) (ed : editor) : editor :=
  Editor (file_name ed) (suitable ed) (phantoms ed) (displayed ed) (viewport ed)
         (e :: errors ed) (status ed) (calls ed).

(** [sublime.status_message(msg)] *)
Definition status_message (msg : str) (ed : editor) : editor :=
  Editor (file_name ed) (suitable ed) (phantoms ed) (displayed ed) (viewport ed)
         (errors ed) (msg :: status ed) (calls ed).

Definition record_call (cmd : list str) (cwd : str) (ed : editor) : editor :=
  Editor (file_name ed) (suitable ed) (phantoms ed) (displayed ed) (viewport ed)
         (errors ed) (status ed) ((cmd, cwd) :: calls ed).

(** ** The environment of the command

    What lies outside the repository: [os.path], the package setting
    [PKG_SETTINGS_KEY_CUSTOMBLAMEFLAGS] ([None] when not configured) and
    the subprocess, which maps a command line and a working directory to
    the decoded output or to the exception [check_output] raises. *)

Record environment : Type := Environment {
  basename : str -> str;
  dirname : str -> str;
  realpath : str -> str;
  custom_blame_flags : option (list str);
  check_output : list str -> str -> result str
}.

(** ** [BlameEraseAll] *)

Module BlameEraseAll.

Definition erase_notice : str := lit "The git blame result is cleared.".

(** [BlameEraseAll.run] *)
Definition run (ed : editor) : editor :=
  erase_phantoms (status_message erase_notice ed).

End BlameEraseAll.

(** ** [BlameShowAll] *)

Module BlameShowAll.

(** The command object: [self.pattern]. *)
Record command : Type := Command { pattern : option regex }.

(** [BlameShowAll.prepare_pattern] *)

Definition plus (p : ascii -> bool) : regex := Rep true 1 None p.
Definition exactly (n : nat) (p : ascii -> bool) : regex := Rep true n (Some n) p.

Definition p_sha : regex :=
  Grp (Some "sha"%string) (Cat (Rep true 0 (Some 1) (is_char "^")) (plus is_word)).
Definition re_s : regex := plus is_space.
Definition p_file : regex :=
  Grp None (Cat (Grp (Some "file"%string) (plus is_file_char)) re_s).
Definition p_author : regex := Grp (Some "author"%string) (Rep false 1 None is_dot).
Definition p_date : regex :=
  Grp (Some "date"%string)
    (Cat (exactly 4 is_digit) (Cat (Chr (is_char "-"))
    (Cat (exactly 2 is_digit) (Cat (Chr (is_char "-")) (exactly 2 is_digit))))).
Definition p_time : regex :=
  Grp (Some "time"%string)
    (Cat (exactly 2 is_digit) (Cat (Chr (is_char ":"))
    (Cat (exactly 2 is_digit) (Cat (Chr (is_char ":")) (exactly 2 is_digit))))).
Definition p_timezone : regex :=
  Grp (Some "timezone"%string) (Cat (Chr is_sign) (plus is_digit)).
Definition p_line : regex := Grp (Some "line_number"%string) (plus is_digit).

Definition prepare_pattern : regex :=
  Cat Bol (Cat p_sha (Cat re_s (Cat p_file (Cat (Chr (is_char "("))
  (Cat p_author (Cat re_s (Cat p_date (Cat re_s (Cat p_time (Cat re_s
  (Cat p_timezone (Cat re_s (Cat p_line
  (Cat (Chr (is_char ")")) (Chr (is_char " ")))))))))))))))).

(** [BlameShowAll.parse_blame]

    [self.pattern] is compiled on first use and kept; the command object's
    field is threaded through.  [m.groupdict()] on [m = None] raises
    [AttributeError]. *)

Definition parse_blame (pattern : option regex) (blame : str)
    : option regex * result dict :=
  let pattern' :=
    match pattern with
    | Some r => r
    | None => prepare_pattern
    end in
  (Some pattern',
   match re_match pattern' blame with
   | Some d => Ret d
   | None => Raise AttributeError
   end).

(** [BlameShowAll.get_blame] *)
Definition get_blame (env : environment) (path : str) (ed : editor)
    : editor * result str :=
  let cmd_line := [lit "git"; lit "blame"; lit "--show-name"; lit "--minimal"; lit "-w"] in
  let cmd_line :=
    cmd_line ++ match custom_blame_flags env with
                | Some flags => flags
                | None => []
                end in
  let cmd_line := cmd_line ++ [lit "--"; basename env path] in
  let cwd := dirname env (realpath env path) in
  (record_call cmd_line cwd ed, check_output env cmd_line cwd).

(** [[self.parse_blame(line) for line in lines]] *)
Fixpoint parse_lines (pat : option regex) (lines : list str)
    : option regex * result (list dict) :=
  match lines with
  | [] => (pat, Ret [])
  | line :: lines' =>
      match parse_blame pat line with
      | (pat', Raise e) => (pat', Raise e)
      | (pat', Ret b) =>
          let (pat'', r) := parse_lines pat' lines' in
          (pat'', bs <- r ;; Ret (b :: bs))
      end
  end.

Definition nbsp : str := lit "&nbsp;".

(** [max(len(b["author"]) for b in blames)] *)
Definition max_author_len (blames : list dict) : result Z :=
  lens <- mapM (fun b => author <- dict_item b "author" ;; Ret (len author)) blames ;;
  py_max lens.

(** [BlameShowAll.get_line_point]: the region of a line, which the model
    identifies by the row of the line. *)
Definition get_line_point (line : Z) : Z := line.

(** The body of the loop over [blames]. *)
Definition make_phantom (max_len : Z) (blame : dict) : result phantom :=
  digits <- dict_item blame "line_number" ;;
  line_number <- py_int digits ;;
  let line_point := get_line_point (line_number - 1) in
  author <- dict_item blame "author" ;;
  sha <- dict_item blame "sha" ;;
  let user := author ++ str_mul nbsp (max_len - len author) in
  date <- dict_item blame "date" ;;
  time <- dict_item blame "time" ;;
  Ret (Phantom line_point sha user date time).

Definition make_phantoms (blames : list dict) : result (list phantom) :=
  max_len <- max_author_len blames ;;
  mapM (make_phantom max_len) blames.

Definition parse_failure : str :=
  lit "Failed to parse anything for BlameShowAll. Has git's output format changed?".

(** [BlameShowAll.run]: the command object and the editor afterwards, and
    whether the call returned or an exception escaped. *)
Definition run (env : environment) (self : command) (ed : editor)
    : command * editor * result unit :=
  if negb (view_is_suitable ed) then (self, ed, Ret tt)
  else
    let ed := erase_phantoms ed in
    if settings_get ed then
      (self, settings_set false (phantom_set_update [] ed), Ret tt)
    else
      match get_blame env (file_name ed) ed with
      | (ed, Raise e) => (self, communicate_error (ReportExn e) ed, Ret tt)
      | (ed, Ret blame_output) =>
          match parse_lines (pattern self) (splitlines blame_output) with
          | (pat, Raise e) => (Command pat, ed, Raise e)
          | (pat, Ret blames) =>
              let blames := filter truthy blames in
              match blames with
              | [] => (Command pat, communicate_error (ReportMsg parse_failure) ed, Ret tt)
              | _ :: _ =>
                  match make_phantoms blames with
                  | Raise e => (Command pat, ed, Raise e)
                  | Ret ps =>
                      (Command pat,
                       scroll_left (settings_set true (phantom_set_update ps ed)),
                       Ret tt)
                  end
              end
          end
      end.

(** [BlameShowAll.on_phantom_close] *)
Definition on_phantom_close (href : str) (ed : editor) : editor :=
  if list_eq_dec ascii_dec href (lit "close") then BlameEraseAll.run ed else ed.

End BlameShowAll.

Import BlameShowAll.

(** ** [BlameEraseAllListener] *)

Module BlameEraseAllListener.

(** [BlameEraseAllListener.is_applicable] *)
Definition is_applicable (ed : editor) : bool := settings_get ed.

(** [BlameEraseAllListener.on_modified_async] *)
Definition on_modified_async (ed : editor) : editor :=
  settings_erase (BlameEraseAll.run ed).

End BlameEraseAllListener.

(** The host's dispatch of a buffer modification: the listener runs on the
    views it is applicable to. *)
Definition buffer_modified (ed : editor) : editor :=
  if BlameEraseAllListener.is_applicable ed
  then BlameEraseAllListener.on_modified_async ed
  else ed.

(** * Specification-side definitions *)

(** ** What a regular expression denotes

    [matches r pos u d d']: [r] matches exactly the text [u] at position
    [pos], taking the groups from [d] to [d']. *)

Definition hi_ok (hi : option nat) (n : nat) : Prop :=
  match hi with
  | Some h => n <= h
  | None => True
  end.

Inductive matches : regex -> nat -> str -> dict -> dict -> Prop :=
| M_Bol : forall d, matches Bol 0 [] d d
| M_Chr : forall p a pos d, p a = true -> matches (Chr p) pos [a] d d
| M_Rep : forall g lo hi p u pos d,
    forallb p u = true -> lo <= length u -> hi_ok hi (length u) ->
    matches (Rep g lo hi p) pos u d d
| M_Cat : forall r1 r2 pos u v d d1 d2,
    matches r1 pos u d d1 -> matches r2 (pos + length u) v d1 d2 ->
    matches (Cat r1 r2) pos (u ++ v) d d2
| M_Grp : forall name r pos u d d1,
    matches r pos u d d1 ->
    matches (Grp name r) pos u d (bind_group name u d1).

(** ** The grammar of a blame line, as the specification words it

    [<sha> <ws> <filename> <ws> "(" <author> <ws> <date> <ws> <time> <ws>
    <timezone> <ws> <line_number> ")" " "], anchored at the start of the
    line; whatever follows is the source text of the line. *)

Record fields : Type := Fields {
  f_sha : str;
  f_file : str;
  f_author : str;
  f_date : str;
  f_time : str;
  f_timezone : str;
  f_line_number : str
}.

(** The characters a sha is made of. *)
Definition sha_char (a : ascii) : bool := is_word a || is_char "^" a.

(** An optional [^] and one or more word characters. *)
Definition is_sha (s : str) : bool :=
  match s with
  | a :: w => if is_char "^" a then run_of is_word w else run_of is_word s
  | [] => false
  end.

Definition is_whitespace : str -> bool := run_of is_space.
Definition is_filename : str -> bool := run_of is_file_char.
Definition is_author : str -> bool := run_of is_dot.

(** [YYYY-MM-DD] *)
Definition is_date (s : str) : bool :=
  match s with
  | [y1; y2; y3; y4; h1; m1; m2; h2; d1; d2] =>
      forallb is_digit [y1; y2; y3; y4] && is_char "-" h1 &&
      forallb is_digit [m1; m2] && is_char "-" h2 && forallb is_digit [d1; d2]
  | _ => false
  end.

(** [HH:MM:SS] *)
Definition is_time (s : str) : bool :=
  match s with
  | [h1; h2; c1; m1; m2; c2; s1; s2] =>
      forallb is_digit [h1; h2] && is_char ":" c1 &&
      forallb is_digit [m1; m2] && is_char ":" c2 && forallb is_digit [s1; s2]
  | _ => false
  end.

(** A sign and one or more digits. *)
Definition is_timezone (s : str) : bool :=
  match s with
  | a :: ds => is_sign a && run_of is_digit ds
  | [] => false
  end.

Definition is_line_number : str -> bool := run_of is_digit.

Definition well_formed (f : fields) : bool :=
  is_sha (f_sha f) && is_filename (f_file f) && is_author (f_author f) &&
  is_date (f_date f) && is_time (f_time f) && is_timezone (f_timezone f) &&
  is_line_number (f_line_number f).

(** [layout line f ws1 .. ws6 code]: [line] is the fields [f], separated
    by the whitespace runs [ws1] to [ws6], followed by [code]. *)
Definition layout (line : str) (f : fields) (ws1 ws2 ws3 ws4 ws5 ws6 code : str)
    : Prop :=
  line = f_sha f ++ ws1 ++ f_file f ++ ws2 ++ lit "(" ++ f_author f ++ ws3 ++
         f_date f ++ ws4 ++ f_time f ++ ws5 ++ f_timezone f ++ ws6 ++
         f_line_number f ++ lit ") " ++ code /\
  well_formed f = true /\
  forallb is_whitespace [ws1; ws2; ws3; ws4; ws5; ws6] = true.

(** [blame_grammar line f code]: [line] reads, from position 0, as the
    fields [f] laid out by the grammar, followed by [code]. *)
Definition blame_grammar (line : str) (f : fields) (code : str) : Prop :=
  exists ws1 ws2 ws3 ws4 ws5 ws6 : str, layout line f ws1 ws2 ws3 ws4 ws5 ws6 code.

(** The order in which the matcher tries the readings of a line: the
    longest whitespace after the sha first, then the longest file name,
    then the shortest author.  [prefers ws1 file author ws1' file' author']:
    the first reading is tried no later than the second. *)
Definition prefers (ws1 file author ws1' file' author' : str) : Prop :=
  length ws1' < length ws1 \/
  (length ws1' = length ws1 /\
   (length file' < length file \/
    (length file' = length file /\ length author <= length author'))).

(** The line matches the grammar. *)
Definition matches_grammar (line : str) : Prop :=
  exists f code, blame_grammar line f code.

(** The [groupdict()] of a match with the fields [f]. *)
Definition groupdict_of (f : fields) : dict :=
  [("line_number"%string, f_line_number f); ("timezone"%string, f_timezone f);
   ("time"%string, f_time f); ("date"%string, f_date f);
   ("author"%string, f_author f); ("file"%string, f_file f);
   ("sha"%string, f_sha f)].

(** The command object's [self.pattern]: [None] until the first call of
    [parse_blame], the compiled pattern afterwards. *)
Definition self_pattern (compiled : bool) : option regex :=
  if compiled then Some prepare_pattern else None.

(** ** Sample inputs *)

(** Scenario A of the specification. *)
Definition scenario_a : str :=
  lit "abc1234 file.py        (Alice Smith 2021-05-01 10:00:00 +0000 3) some code".

(** Scenario B: a boundary commit. *)
Definition scenario_b : str :=
  lit "^deadbeef src/main.c (Bob Jones 2019-12-31 23:59:59 -0530 12) int x;".

(** Scenario C: output that is not blame output. *)
Definition scenario_c : str := lit "fatal: no such path".

(** ** Text after the match *)

(** [s] holds no closing parenthesis. *)
Definition no_rparen (s : str) : bool := forallb (fun a => negb (is_char ")" a)) s.

(** [u] is a proper suffix of [tail]. *)
Definition inside (tail u : str) : Prop := exists v, v <> [] /\ tail = v ++ u.

(** The continuation [k1], run on texts that end in [t1], and [k2], run
    on texts that end in [t2], agree as long as the match has not entered
    the tails, and fail once it has; [n] is the length of the text before
    the tail. *)
Definition tail_blind (t1 t2 : str) (n : nat) (k1 k2 : cont) : Prop :=
  (forall pos t d, pos + length t = n -> k1 pos (t ++ t1) d = k2 pos (t ++ t2) d) /\
  (forall pos u d, inside t1 u -> k1 pos u d = None) /\
  (forall pos u d, inside t2 u -> k2 pos u d = None).

(** [ends_with last r]: [r] is a sequence whose last item is [last]. *)
Inductive ends_with (last : regex) : regex -> Prop :=
| ends_here : ends_with last last
| ends_later : forall a r, ends_with last r -> ends_with last (Cat a r).

(** The end of the blame pattern: a closing parenthesis and a space. *)
Definition closing : regex := Cat (Chr (is_char ")")) (Chr (is_char " ")).

(** The continuation of [pattern.match]. *)
Definition accept : cont := fun _ _ d => Some d.

(** A line that reads as two records: the source text holds a second
    parenthesised group. *)
Definition two_readings_prefix : str :=
  lit "abc f (Al 2021-05-01 10:00:00 +0000 3) ".
Definition two_readings_code : str :=
  lit "x (Bob 2022-01-01 11:11:11 +0000 4) code".

(** ** A sample environment

    [os.path] as [posixpath] has it, no symbolic links, no custom flags,
    and a subprocess with a fixed outcome. *)

(** [(p[:i], p[i:])] for [i = p.rfind('/') + 1]. *)
Fixpoint path_split (p : str) : str * str :=
  match p with
  | [] => ([], [])
  | a :: p' =>
      let (head, tail) := path_split p' in
      match head with
      | [] => if is_char "/" a then ([a], tail) else ([], a :: tail)
      | _ :: _ => (a :: head, tail)
      end
  end.

Fixpoint lstrip_slash (s : str) : str :=
  match s with
  | a :: s' => if is_char "/" a then lstrip_slash s' else s
  | [] => []
  end.

Definition posix_basename (p : str) : str := snd (path_split p).

Definition posix_dirname (p : str) : str :=
  let head := fst (path_split p) in
  if forallb (is_char "/") head then head else rev (lstrip_slash (rev head)).

Definition sample_env (flags : option (list str)) (outcome : result str)
    : environment :=
  Environment posix_basename posix_dirname (fun p => p) flags (fun _ _ => outcome).

Definition sample_path : str := lit "/home/user/project/src/main.c".

(** A saved file with nothing displayed. *)
Definition sample_editor : editor :=
  Editor sample_path true [] None (0%Z, 0%Z) [] [] [].

Definition sample_phantom : phantom :=
  Phantom 11 (lit "^deadbeef") (lit "Bob Jones") (lit "2019-12-31") (lit "23:59:59").

(** The same file with its annotations displayed. *)
Definition displaying_editor : editor :=
  Editor sample_path true [sample_phantom] (Some true) (0%Z, 0%Z) [] [] [].

(** The same, in a view that [view_is_suitable] turns down. *)
Definition unsuitable_editor : editor :=
  Editor sample_path false [sample_phantom] (Some true) (0%Z, 0%Z) [] [] [].

(** A command object that has not parsed anything yet. *)
Definition fresh_command : command := Command None.

(** Scenario D: two authors of different lengths. *)
Definition scenario_d : list fields :=
  [Fields (lit "abc1234") (lit "f.py") (lit "Al") (lit "2021-05-01")
          (lit "10:00:00") (lit "+0000") (lit "1");
   Fields (lit "def5678") (lit "f.py") (lit "Bob Jones") (lit "2021-05-02")
          (lit "11:00:00") (lit "+0100") (lit "2")].

(** ** The end of the pattern, from the author on *)

Definition after_author : regex :=
  Cat re_s (Cat p_date (Cat re_s (Cat p_time (Cat re_s
  (Cat p_timezone (Cat re_s (Cat p_line closing))))))).

Definition from_paren : regex :=
  Cat (Chr (is_char "(")) (Cat p_author after_author).

Definition from_file : regex := Cat p_file from_paren.

(** ** More sample inputs *)

(** The record of scenario A. *)
Definition scenario_a_fields : fields :=
  Fields (lit "abc1234") (lit "file.py       ") (lit "Alice Smith")
         (lit "2021-05-01") (lit "10:00:00") (lit "+0000") (lit "3").

(** The record of scenario B. *)
Definition scenario_b_fields : fields :=
  Fields (lit "^deadbeef") (lit "src/main.c") (lit "Bob Jones")
         (lit "2019-12-31") (lit "23:59:59") (lit "-0530") (lit "12").

(** Blame output of two lines. *)
Definition two_lines : str :=
  scenario_a ++ ["010"%char] ++ scenario_b ++ ["010"%char].

(** ** The blame call of a view *)

(** The command line [get_blame] builds for [path]. *)
Definition blame_command (env : environment) (path : str) : list str :=
  [lit "git"; lit "blame"; lit "--show-name"; lit "--minimal"; lit "-w"] ++
  match custom_blame_flags env with
  | Some flags => flags
  | None => []
  end ++ [lit "--"; basename env path].

(** The directory it is run in. *)
Definition blame_cwd (env : environment) (path : str) : str :=
  dirname env (realpath env path).

(** What the subprocess gives for it. *)
Definition blame_outcome (env : environment) (path : str) : result str :=
  check_output env (blame_command env path) (blame_cwd env path).

(** The editor once [run] has erased the phantoms and called [get_blame]. *)
Definition blamed (env : environment) (ed : editor) : editor :=
  record_call (blame_command env (file_name ed)) (blame_cwd env (file_name ed))
              (erase_phantoms ed).

(** The phantom [p] shows a reading of the line [l]. *)
Definition shows (l : str) (p : phantom) : Prop :=
  exists f code, blame_grammar l f code /\
    ph_sha p = f_sha f /\ ph_date p = f_date f /\ ph_time p = f_time f /\
    ph_line p = (decimal (f_line_number f) - 1)%Z /\
    exists pad, ph_user p = f_author f ++ str_mul nbsp pad.

(** ** Sessions

    What can happen to a view, in any order: the show command (in whatever
    environment it then finds), the erase command, a click on a link of a
    phantom, a modification of the buffer. *)

Inductive event : Type :=
| Show : environment -> event
| Erase : event
| Close : str -> event
| Modified : event.

Definition handle (s : command * editor) (ev : event) : command * editor :=
  match ev with
  | Show env => fst (run env (fst s) (snd s))
  | Erase => (fst s, BlameEraseAll.run (snd s))
  | Close href => (fst s, on_phantom_close href (snd s))
  | Modified => (fst s, buffer_modified (snd s))
  end.

Definition session (evs : list event) (s : command * editor) : command * editor :=
  fold_left handle evs s.

(** Phantoms are on display only while the flag is set, and the command
    object holds no pattern or the blame pattern. *)
Definition consistent (s : command * editor) : Prop :=
  (phantoms (snd s) <> [] -> settings_get (snd s) = true) /\
  exists compiled, pattern (fst s) = self_pattern compiled.

(** ** Lines with several readings *)

(** An author with a parenthesis in the name. *)
Definition jane_line : str :=
  lit "abc1234 file.py (Jane Doe (Contractor) 2021-05-01 10:00:00 +0000 3) code".

(** The reading of [jane_line] that takes the whole name as the author. *)
Definition jane_fields : fields :=
  Fields (lit "abc1234") (lit "file.py") (lit "Jane Doe (Contractor)")
         (lit "2021-05-01") (lit "10:00:00") (lit "+0000") (lit "3").

(** An author padded with blanks, as git blame aligns its columns. *)
Definition padded_line : str :=
  lit "abc1234 file.py (Al       2021-05-01 10:00:00 +0000 3) code".

(** The reading of [padded_line] that takes the padding into the author. *)
Definition padded_fields : fields :=
  Fields (lit "abc1234") (lit "file.py") (lit "Al      ")
         (lit "2021-05-01") (lit "10:00:00") (lit "+0000") (lit "3").
(** * The matcher against the grammar it implements *)

Create HintDb re.
#[local] Hint Constructors matches : re.

Lemma hi_ok_open hi n : hi_ok hi (S n) -> hi_open hi = true /\ hi_ok (hi_pred hi) n.
Proof.
  destruct hi as [[|h]|]; simpl; intros H; split; trivial; lia.
Qed.

Lemma hi_open_ok hi n : hi_open hi = true -> hi_ok (hi_pred hi) n -> hi_ok hi (S n).
Proof.
  destruct hi as [[|h]|]; simpl; intros H1 H2; trivial; try discriminate; lia.
Qed.

Lemma at_least_some lo k pos s d r :
  at_least lo k pos s d = Some r -> lo = 0 /\ k pos s d = Some r.
Proof.
  unfold at_least. destruct lo; simpl; intros H; [auto | discriminate].
Qed.

(** ** Soundness: a result of the matcher comes from a match *)

Lemma at_least_sound lo hi p k pos s d r :
  at_least lo k pos s d = Some r ->
  exists u s', s = u ++ s' /\ forallb p u = true /\ lo <= length u /\
    hi_ok hi (length u) /\ k (pos + length u) s' d = Some r.
Proof.
  intros H. apply at_least_some in H. destruct H as [-> H].
  exists [], s. simpl. rewrite Nat.add_0_r.
  repeat split; auto. destruct hi; simpl; lia.
Qed.

Lemma rep_step_sound lo hi p (k : cont) pos a s d r :
  p a && hi_open hi = true ->
  (exists u s', s = u ++ s' /\ forallb p u = true /\ pred lo <= length u /\
     hi_ok (hi_pred hi) (length u) /\ k (S pos + length u) s' d = Some r) ->
  exists u s', a :: s = u ++ s' /\ forallb p u = true /\ lo <= length u /\
    hi_ok hi (length u) /\ k (pos + length u) s' d = Some r.
Proof.
  intros Hp (u & s' & -> & Hu & Hlo & Hhi & Hk).
  apply andb_true_iff in Hp. destruct Hp as [Hpa Hopen].
  exists (a :: u), s'. simpl. rewrite Hpa, Hu.
  replace (pos + S (length u)) with (S pos + length u) by lia.
  repeat split; auto using hi_open_ok. lia.
Qed.

Lemma rep_greedy_sound p s : forall lo hi pos d k r,
  rep_greedy p lo hi pos s d k = Some r ->
  exists u s', s = u ++ s' /\ forallb p u = true /\ lo <= length u /\
    hi_ok hi (length u) /\ k (pos + length u) s' d = Some r.
Proof.
  induction s as [|a s IH]; intros lo hi pos d k r; simpl.
  - apply at_least_sound.
  - destruct (p a && hi_open hi) eqn:Hp; [|apply at_least_sound].
    destruct (rep_greedy p (pred lo) (hi_pred hi) (S pos) s d k) as [r'|] eqn:Hrec.
    + intros [= <-]. apply rep_step_sound; [assumption | apply IH; assumption].
    + apply at_least_sound.
Qed.

Lemma rep_lazy_sound p s : forall lo hi pos d k r,
  rep_lazy p lo hi pos s d k = Some r ->
  exists u s', s = u ++ s' /\ forallb p u = true /\ lo <= length u /\
    hi_ok hi (length u) /\ k (pos + length u) s' d = Some r.
Proof.
  induction s as [|a s IH]; intros lo hi pos d k r; simpl.
  - destruct (at_least lo k pos [] d) eqn:Hk; [|discriminate].
    intros [= <-]. eapply at_least_sound; eassumption.
  - destruct (at_least lo k pos (a :: s) d) eqn:Hk.
    + intros [= <-]. eapply at_least_sound; eassumption.
    + destruct (p a && hi_open hi) eqn:Hp; [|discriminate].
      intros Hrec. apply rep_step_sound; [assumption | apply IH; assumption].
Qed.

Theorem exec_sound r : forall pos s d k res,
  exec r pos s d k = Some res ->
  exists u s' d', s = u ++ s' /\ matches r pos u d d' /\
    k (pos + length u) s' d' = Some res.
Proof.
  induction r as [|p|g lo hi p|r1 IH1 r2 IH2|name r1 IH1];
    intros pos s d k res; simpl.
  - destruct (Nat.eqb_spec pos 0) as [->|]; [|discriminate].
    intros H. exists [], s, d. simpl. auto with re.
  - destruct s as [|a s]; [discriminate|].
    destruct (p a) eqn:Hp; [|discriminate].
    intros H. exists [a], s, d. simpl.
    replace (pos + 1) with (S pos) by lia. auto with re.
  - intros H.
    assert (exists u s', s = u ++ s' /\ forallb p u = true /\ lo <= length u /\
      hi_ok hi (length u) /\ k (pos + length u) s' d = Some res)
      as (u & s' & -> & Hu & Hlo & Hhi & Hk)
      by (destruct g; [eapply rep_greedy_sound | eapply rep_lazy_sound]; eassumption).
    exists u, s', d. auto with re.
  - intros H. apply IH1 in H. destruct H as (u & s1 & d1 & -> & Hm1 & H).
    apply IH2 in H. destruct H as (v & s2 & d2 & -> & Hm2 & H).
    exists (u ++ v), s2, d2. rewrite length_app, Nat.add_assoc, app_assoc.
    eauto with re.
  - intros H. apply IH1 in H. destruct H as (u & s1 & d1 & -> & Hm1 & H).
    replace (pos + length u - pos) with (length u) in H by lia.
    rewrite firstn_app, Nat.sub_diag, firstn_all in H. simpl in H.
    rewrite app_nil_r in H.
    exists u, s1, (bind_group name u d1). auto with re.
Qed.

(** ** Completeness: where there is a match, the matcher finds one *)

Lemma rep_greedy_complete p u : forall lo hi pos s' d k,
  forallb p u = true -> lo <= length u -> hi_ok hi (length u) ->
  k (pos + length u) s' d <> None ->
  rep_greedy p lo hi pos (u ++ s') d k <> None.
Proof.
  induction u as [|a u IH]; intros lo hi pos s' d k Hu Hlo Hhi Hk; simpl in *.
  - assert (lo = 0) as -> by lia. rewrite Nat.add_0_r in Hk.
    destruct s' as [|b s']; simpl; auto.
    destruct (p b && hi_open hi); auto.
    destruct (rep_greedy p 0 (hi_pred hi) (S pos) s' d k); auto. discriminate.
  - apply andb_true_iff in Hu. destruct Hu as [Hpa Hu].
    apply hi_ok_open in Hhi. destruct Hhi as [Hopen Hhi].
    rewrite Hpa, Hopen. simpl.
    destruct (rep_greedy p (pred lo) (hi_pred hi) (S pos) (u ++ s') d k) eqn:Hrec;
      [discriminate|].
    exfalso. revert Hrec. apply IH; auto; try lia.
    replace (S pos + length u) with (pos + S (length u)) by lia. assumption.
Qed.

Lemma rep_lazy_complete p u : forall lo hi pos s' d k,
  forallb p u = true -> lo <= length u -> hi_ok hi (length u) ->
  k (pos + length u) s' d <> None ->
  rep_lazy p lo hi pos (u ++ s') d k <> None.
Proof.
  induction u as [|a u IH]; intros lo hi pos s' d k Hu Hlo Hhi Hk; simpl in *.
  - assert (lo = 0) as -> by lia. rewrite Nat.add_0_r in Hk.
    destruct s' as [|b s']; simpl; unfold at_least; simpl;
      destruct (k pos _ d); congruence.
  - apply andb_true_iff in Hu. destruct Hu as [Hpa Hu].
    apply hi_ok_open in Hhi. destruct Hhi as [Hopen Hhi].
    rewrite Hpa, Hopen. simpl.
    destruct (at_least lo k pos (a :: u ++ s') d); [discriminate|].
    apply IH; auto; try lia.
    replace (S pos + length u) with (pos + S (length u)) by lia. assumption.
Qed.

Theorem exec_complete r pos u d d' :
  matches r pos u d d' ->
  forall s' k, k (pos + length u) s' d' <> None -> exec r pos (u ++ s') d k <> None.
Proof.
  induction 1 as [d|p a pos d Hp|g lo hi p u pos d Hu Hlo Hhi
                 |r1 r2 pos u v d d1 d2 _ IH1 _ IH2|name r pos u d d1 _ IH];
    intros s' k Hk; simpl in *.
  - assumption.
  - rewrite Hp. replace (S pos) with (pos + 1) by lia. assumption.
  - destruct g; [apply rep_greedy_complete | apply rep_lazy_complete]; assumption.
  - rewrite <- app_assoc. apply IH1. apply IH2.
    rewrite length_app, Nat.add_assoc in Hk. assumption.
  - apply IH.
    replace (pos + length u - pos) with (length u) by lia.
    rewrite firstn_app, Nat.sub_diag, firstn_all. simpl. rewrite app_nil_r.
    assumption.
Qed.

(** ** Inversion of [matches], one lemma per construct *)

Lemma matches_Bol pos u d d' :
  matches Bol pos u d d' <-> pos = 0 /\ u = [] /\ d' = d.
Proof.
  split.
  - inversion 1; subst; auto.
  - intros (-> & -> & ->). constructor.
Qed.

Lemma matches_Chr p pos u d d' :
  matches (Chr p) pos u d d' <-> (exists a, u = [a] /\ p a = true) /\ d' = d.
Proof.
  split.
  - inversion 1; subst; eauto.
  - intros ((a & -> & Hp) & ->). constructor; assumption.
Qed.

Lemma matches_Rep g lo hi p pos u d d' :
  matches (Rep g lo hi p) pos u d d' <->
  (forallb p u = true /\ lo <= length u /\ hi_ok hi (length u)) /\ d' = d.
Proof.
  split.
  - inversion 1; subst; auto.
  - intros ((Hu & Hlo & Hhi) & ->). constructor; assumption.
Qed.

Lemma matches_Cat r1 r2 pos w d d2 :
  matches (Cat r1 r2) pos w d d2 <->
  exists u v d1, w = u ++ v /\ matches r1 pos u d d1 /\
    matches r2 (pos + length u) v d1 d2.
Proof.
  split.
  - inversion 1; subst; eauto 7.
  - intros (u & v & d1 & -> & H1 & H2). econstructor; eassumption.
Qed.

Lemma matches_Grp name r pos u d d' :
  matches (Grp name r) pos u d d' <->
  exists d1, matches r pos u d d1 /\ d' = bind_group name u d1.
Proof.
  split.
  - inversion 1; subst; eauto.
  - intros (d1 & H & ->). constructor; assumption.
Qed.


(** ** The pieces of the pattern against the recognisers of the grammar *)

Lemma run_of_spec p u :
  run_of p u = true <-> forallb p u = true /\ 1 <= length u.
Proof.
  destruct u as [|a u]; simpl.
  - split; [discriminate | intros [_ H]; lia].
  - split; [intros H; split; [assumption | lia] | tauto].
Qed.

Lemma matches_plus p pos u d d' :
  matches (plus p) pos u d d' <-> run_of p u = true /\ d' = d.
Proof.
  unfold plus. rewrite matches_Rep, run_of_spec. simpl. tauto.
Qed.

Lemma matches_exactly n p pos u d d' :
  matches (exactly n p) pos u d d' <->
  (length u = n /\ forallb p u = true) /\ d' = d.
Proof.
  unfold exactly. rewrite matches_Rep. simpl. intuition lia.
Qed.

Lemma matches_char c pos u d d' :
  matches (Chr (is_char c)) pos u d d' <-> u = [c] /\ d' = d.
Proof.
  rewrite matches_Chr. unfold is_char. split.
  - intros ((a & -> & Ha) & ->). apply Ascii.eqb_eq in Ha. subst. auto.
  - intros (-> & ->). split; [|reflexivity]. exists c. split; [reflexivity|].
    apply Ascii.eqb_refl.
Qed.

Lemma caret_not_word a : is_char "^" a = true -> is_word a = false.
Proof.
  unfold is_char. intros H. apply Ascii.eqb_eq in H. subst. reflexivity.
Qed.

Lemma matches_p_sha pos u d d' :
  matches p_sha pos u d d' <-> is_sha u = true /\ d' = ("sha"%string, u) :: d.
Proof.
  unfold p_sha. rewrite matches_Grp. split.
  - intros (d1 & H & ->). apply matches_Cat in H.
    destruct H as (c & w & d2 & -> & Hc & Hw).
    apply matches_Rep in Hc. destruct Hc as ((Hc & _ & Hlen) & ->).
    apply matches_plus in Hw. destruct Hw as (Hw & ->).
    split; [|reflexivity]. simpl in Hlen.
    destruct c as [|a [|b c]]; simpl in *; try lia.
    + destruct w as [|a w]; [discriminate|]. simpl in *.
      destruct (is_char "^" a) eqn:Ha; [|assumption].
      apply caret_not_word in Ha. rewrite Ha in Hw. discriminate.
    + apply andb_true_iff in Hc. destruct Hc as [-> _]. assumption.
  - intros (Hu & ->). exists d. split; [|reflexivity].
    destruct u as [|a w]; [discriminate|]. simpl in Hu.
    destruct (is_char "^" a) eqn:Ha.
    + change (a :: w) with ([a] ++ w). apply M_Cat with (d1 := d).
      * apply matches_Rep. simpl. rewrite Ha. repeat split; auto.
      * apply matches_plus. auto.
    + change (a :: w) with ([] ++ a :: w). apply M_Cat with (d1 := d).
      * apply matches_Rep. simpl. repeat split; auto.
      * apply matches_plus. auto.
Qed.

Lemma matches_re_s pos u d d' :
  matches re_s pos u d d' <-> is_whitespace u = true /\ d' = d.
Proof. apply matches_plus. Qed.

Lemma matches_p_file pos w d d' :
  matches p_file pos w d d' <->
  exists u ws, w = u ++ ws /\ is_filename u = true /\ is_whitespace ws = true /\
    d' = ("file"%string, u) :: d.
Proof.
  unfold p_file. rewrite matches_Grp. split.
  - intros (d1 & H & ->). apply matches_Cat in H.
    destruct H as (u & ws & d2 & -> & Hu & Hws).
    apply matches_Grp in Hu. destruct Hu as (d3 & Hu & ->).
    apply matches_plus in Hu. destruct Hu as (Hu & ->).
    apply matches_re_s in Hws. destruct Hws as (Hws & ->).
    exists u, ws. auto.
  - intros (u & ws & -> & Hu & Hws & ->).
    exists (("file"%string, u) :: d). split; [|reflexivity].
    apply M_Cat with (d1 := ("file"%string, u) :: d).
    + apply matches_Grp. exists d. split; [|reflexivity]. apply matches_plus. auto.
    + apply matches_re_s. auto.
Qed.

Lemma matches_p_author pos u d d' :
  matches p_author pos u d d' <->
  is_author u = true /\ d' = ("author"%string, u) :: d.
Proof.
  unfold p_author. rewrite matches_Grp. split.
  - intros (d1 & H & ->). apply matches_Rep in H. destruct H as ((Hu & Hlen & _) & ->).
    split; [|reflexivity]. apply run_of_spec. auto.
  - intros (Hu & ->). exists d. split; [|reflexivity].
    apply run_of_spec in Hu. apply matches_Rep. simpl. tauto.
Qed.

Lemma matches_p_line pos u d d' :
  matches p_line pos u d d' <->
  is_line_number u = true /\ d' = ("line_number"%string, u) :: d.
Proof.
  unfold p_line. rewrite matches_Grp. split.
  - intros (d1 & H & ->). apply matches_plus in H. destruct H as (Hu & ->). auto.
  - intros (Hu & ->). exists d. split; [|reflexivity]. apply matches_plus. auto.
Qed.

Lemma matches_p_timezone pos u d d' :
  matches p_timezone pos u d d' <->
  is_timezone u = true /\ d' = ("timezone"%string, u) :: d.
Proof.
  unfold p_timezone. rewrite matches_Grp. split.
  - intros (d1 & H & ->). apply matches_Cat in H.
    destruct H as (sg & ds & d2 & -> & Hsg & Hds).
    apply matches_Chr in Hsg. destruct Hsg as ((a & -> & Ha) & ->).
    apply matches_plus in Hds. destruct Hds as (Hds & ->).
    split; [|reflexivity]. simpl. rewrite Ha, Hds. reflexivity.
  - intros (Hu & ->). exists d. split; [|reflexivity].
    destruct u as [|a ds]; [discriminate|]. simpl in Hu.
    apply andb_true_iff in Hu. destruct Hu as [Ha Hds].
    change (a :: ds) with ([a] ++ ds). apply M_Cat with (d1 := d).
    + apply matches_Chr. eauto.
    + apply matches_plus. auto.
Qed.

Lemma matches_triple n1 n2 n3 c1 c2 p pos u d d' :
  matches (Cat (exactly n1 p) (Cat (Chr (is_char c1))
          (Cat (exactly n2 p) (Cat (Chr (is_char c2)) (exactly n3 p))))) pos u d d' <->
  (exists u1 u2 u3, u = u1 ++ [c1] ++ u2 ++ [c2] ++ u3 /\
     (length u1 = n1 /\ forallb p u1 = true) /\
     (length u2 = n2 /\ forallb p u2 = true) /\
     (length u3 = n3 /\ forallb p u3 = true)) /\ d' = d.
Proof.
  split.
  - intros H.
    apply matches_Cat in H. destruct H as (u1 & v1 & e1 & -> & H1 & H).
    apply matches_Cat in H. destruct H as (x1 & v2 & e2 & -> & Hx1 & H).
    apply matches_Cat in H. destruct H as (u2 & v3 & e3 & -> & H2 & H).
    apply matches_Cat in H. destruct H as (x2 & u3 & e4 & -> & Hx2 & H3).
    apply matches_exactly in H1, H2, H3. apply matches_char in Hx1, Hx2.
    destruct H1 as (H1 & ->), H2 as (H2 & ->), H3 as (H3 & ->).
    destruct Hx1 as (-> & ->), Hx2 as (-> & ->).
    split; [|reflexivity]. exists u1, u2, u3. auto.
  - intros ((u1 & u2 & u3 & -> & H1 & H2 & H3) & ->).
    apply M_Cat with (d1 := d); [apply matches_exactly; auto|].
    apply M_Cat with (d1 := d); [apply matches_char; auto|].
    apply M_Cat with (d1 := d); [apply matches_exactly; auto|].
    apply M_Cat with (d1 := d); [apply matches_char; auto|].
    apply matches_exactly; auto.
Qed.


Lemma is_date_spec u :
  is_date u = true <->
  exists u1 u2 u3, u = u1 ++ ["-"%char] ++ u2 ++ ["-"%char] ++ u3 /\
    (length u1 = 4 /\ forallb is_digit u1 = true) /\
    (length u2 = 2 /\ forallb is_digit u2 = true) /\
    (length u3 = 2 /\ forallb is_digit u3 = true).
Proof.
  split.
  - intros H.
    do 10 (destruct u as [|? u]; [discriminate H|]); destruct u; [|discriminate H].
    unfold is_date in H. rewrite !andb_true_iff in H.
    destruct H as ((((Hy & Hh1) & Hm) & Hh2) & Hd).
    apply Ascii.eqb_eq in Hh1, Hh2. subst.
    eexists [_; _; _; _], [_; _], [_; _]. simpl. auto.
  - intros (u1 & u2 & u3 & -> & (L1 & H1) & (L2 & H2) & (L3 & H3)).
    do 5 (destruct u1 as [|? u1]; try discriminate L1).
    do 3 (destruct u2 as [|? u2]; try discriminate L2).
    do 3 (destruct u3 as [|? u3]; try discriminate L3).
    unfold is_date. simpl app. cbv iota beta. rewrite H1, H2, H3. reflexivity.
Qed.

Lemma is_time_spec u :
  is_time u = true <->
  exists u1 u2 u3, u = u1 ++ [":"%char] ++ u2 ++ [":"%char] ++ u3 /\
    (length u1 = 2 /\ forallb is_digit u1 = true) /\
    (length u2 = 2 /\ forallb is_digit u2 = true) /\
    (length u3 = 2 /\ forallb is_digit u3 = true).
Proof.
  split.
  - intros H.
    do 8 (destruct u as [|? u]; [discriminate H|]); destruct u; [|discriminate H].
    unfold is_time in H. rewrite !andb_true_iff in H.
    destruct H as ((((Hy & Hh1) & Hm) & Hh2) & Hd).
    apply Ascii.eqb_eq in Hh1, Hh2. subst.
    eexists [_; _], [_; _], [_; _]. simpl. auto.
  - intros (u1 & u2 & u3 & -> & (L1 & H1) & (L2 & H2) & (L3 & H3)).
    do 3 (destruct u1 as [|? u1]; try discriminate L1).
    do 3 (destruct u2 as [|? u2]; try discriminate L2).
    do 3 (destruct u3 as [|? u3]; try discriminate L3).
    unfold is_time. simpl app. cbv iota beta. rewrite H1, H2, H3. reflexivity.
Qed.

Lemma matches_p_date pos u d d' :
  matches p_date pos u d d' <-> is_date u = true /\ d' = ("date"%string, u) :: d.
Proof.
  unfold p_date. rewrite matches_Grp, is_date_spec. split.
  - intros (d1 & H & ->). apply matches_triple in H. destruct H as (H & ->). auto.
  - intros (H & ->). exists d. split; [|reflexivity]. apply matches_triple. auto.
Qed.

Lemma matches_p_time pos u d d' :
  matches p_time pos u d d' <-> is_time u = true /\ d' = ("time"%string, u) :: d.
Proof.
  unfold p_time. rewrite matches_Grp, is_time_spec. split.
  - intros (d1 & H & ->). apply matches_triple in H. destruct H as (H & ->). auto.
  - intros (H & ->). exists d. split; [|reflexivity]. apply matches_triple. auto.
Qed.

(** ** The pattern against the grammar *)

Ltac invert_matches :=
  repeat match goal with
    | H : matches (Cat _ _) _ _ _ _ |- _ =>
        apply matches_Cat in H; destruct H as (? & ? & ? & -> & ? & ?)
    | H : matches Bol _ _ _ _ |- _ =>
        apply matches_Bol in H; destruct H as (_ & -> & ->)
    | H : matches (Chr (is_char _)) _ _ _ _ |- _ =>
        apply matches_char in H; destruct H as (-> & ->)
    | H : matches re_s _ _ _ _ |- _ =>
        apply matches_re_s in H; destruct H as (? & ->)
    | H : matches p_sha _ _ _ _ |- _ =>
        apply matches_p_sha in H; destruct H as (? & ->)
    | H : matches p_file _ _ _ _ |- _ =>
        apply matches_p_file in H; destruct H as (? & ? & -> & ? & ? & ->)
    | H : matches p_author _ _ _ _ |- _ =>
        apply matches_p_author in H; destruct H as (? & ->)
    | H : matches p_date _ _ _ _ |- _ =>
        apply matches_p_date in H; destruct H as (? & ->)
    | H : matches p_time _ _ _ _ |- _ =>
        apply matches_p_time in H; destruct H as (? & ->)
    | H : matches p_timezone _ _ _ _ |- _ =>
        apply matches_p_timezone in H; destruct H as (? & ->)
    | H : matches p_line _ _ _ _ |- _ =>
        apply matches_p_line in H; destruct H as (? & ->)
    end.

Lemma pattern_grammar u d' :
  matches prepare_pattern 0 u [] d' ->
  exists f, d' = groupdict_of f /\ blame_grammar u f [].
Proof.
  unfold prepare_pattern. intros H. invert_matches.
  match goal with
  | |- exists f, [(_, ?ln); (_, ?tz); (_, ?tm); (_, ?dt); (_, ?au); (_, ?fl); (_, ?sh)] = _ /\ _ =>
      exists (Fields sh fl au dt tm tz ln)
  end.
  split; [reflexivity|]. unfold blame_grammar, layout, well_formed. simpl.
  match goal with
  | Hs : is_sha _ = true, H1 : is_whitespace ?w1 = true,
    Hf : is_filename _ = true, H2 : is_whitespace ?w2 = true,
    Ha : is_author _ = true, H3 : is_whitespace ?w3 = true,
    Hd : is_date _ = true, H4 : is_whitespace ?w4 = true,
    Ht : is_time _ = true, H5 : is_whitespace ?w5 = true,
    Hz : is_timezone _ = true, H6 : is_whitespace ?w6 = true,
    Hl : is_line_number _ = true |- _ =>
      exists w1, w2, w3, w4, w5, w6;
      rewrite Hs, H1, Hf, H2, Ha, H3, Hd, H4, Ht, H5, Hz, H6, Hl
  end.
  repeat split. rewrite <- !app_assoc. reflexivity.
Qed.

Lemma grammar_pattern u f :
  blame_grammar u f [] -> matches prepare_pattern 0 u [] (groupdict_of f).
Proof.
  intros (ws1 & ws2 & ws3 & ws4 & ws5 & ws6 & -> & Hf & Hws).
  unfold well_formed in Hf. simpl in Hws. rewrite !andb_true_iff in Hf, Hws.
  destruct Hf as ((((((Hs & Hfl) & Ha) & Hd) & Ht) & Hz) & Hl).
  destruct Hws as (H1 & H2 & H3 & H4 & H5 & H6 & _).
  destruct f as [sha file author date time tz ln].
  cbn [f_sha f_file f_author f_date f_time f_timezone f_line_number] in *.
  unfold prepare_pattern, groupdict_of.
  cbn [f_sha f_file f_author f_date f_time f_timezone f_line_number].
  rewrite (app_assoc file ws2).
  change (lit "(") with ["("%char].
  change (lit ") " ++ []) with ([")"%char] ++ [" "%char]).
  rewrite <- (app_nil_l (sha ++ _)).
  repeat (eapply M_Cat;
    [ first [ apply M_Bol
            | apply matches_char; split; reflexivity
            | apply matches_re_s; split; [assumption | reflexivity]
            | apply matches_p_sha; split; [assumption | reflexivity]
            | apply matches_p_file; do 2 eexists; repeat split; assumption
            | apply matches_p_author; split; [assumption | reflexivity]
            | apply matches_p_date; split; [assumption | reflexivity]
            | apply matches_p_time; split; [assumption | reflexivity]
            | apply matches_p_timezone; split; [assumption | reflexivity]
            | apply matches_p_line; split; [assumption | reflexivity] ] | ]).
  apply matches_char. split; reflexivity.
Qed.

Lemma grammar_split line f code :
  blame_grammar line f code <-> exists u, line = u ++ code /\ blame_grammar u f [].
Proof.
  split.
  - intros (ws1 & ws2 & ws3 & ws4 & ws5 & ws6 & -> & Hf & Hws).
    exists (f_sha f ++ ws1 ++ f_file f ++ ws2 ++ lit "(" ++ f_author f ++ ws3 ++
            f_date f ++ ws4 ++ f_time f ++ ws5 ++ f_timezone f ++ ws6 ++
            f_line_number f ++ lit ") ").
    split.
    + rewrite <- !app_assoc. reflexivity.
    + exists ws1, ws2, ws3, ws4, ws5, ws6. repeat split; assumption.
  - intros (u & -> & ws1 & ws2 & ws3 & ws4 & ws5 & ws6 & -> & Hf & Hws).
    exists ws1, ws2, ws3, ws4, ws5, ws6. repeat split; try assumption.
    rewrite <- !app_assoc. reflexivity.
Qed.

(** ** [pattern.match] on the blame pattern *)

Lemma re_match_sound line d :
  re_match prepare_pattern line = Some d ->
  exists f code, d = groupdict_of f /\ blame_grammar line f code.
Proof.
  unfold re_match. intros H. apply exec_sound in H.
  destruct H as (u & code & d' & -> & Hm & [= <-]).
  apply pattern_grammar in Hm. destruct Hm as (f & -> & Hg).
  exists f, code. split; [reflexivity|]. apply grammar_split. eauto.
Qed.

Lemma re_match_complete line :
  matches_grammar line -> re_match prepare_pattern line <> None.
Proof.
  intros (f & code & Hg). apply grammar_split in Hg. destruct Hg as (u & -> & Hg).
  unfold re_match. eapply exec_complete.
  - apply grammar_pattern. eassumption.
  - discriminate.
Qed.

Lemma re_match_none line :
  ~ matches_grammar line -> re_match prepare_pattern line = None.
Proof.
  intros Hn. destruct (re_match prepare_pattern line) as [d|] eqn:H; [|reflexivity].
  exfalso. apply Hn. apply re_match_sound in H. destruct H as (f & code & _ & Hg).
  exists f, code. assumption.
Qed.

Lemma parse_blame_eq compiled line :
  parse_blame (self_pattern compiled) line =
  (self_pattern true,
   match re_match prepare_pattern line with
   | Some d => Ret d
   | None => Raise AttributeError
   end).
Proof. destruct compiled; reflexivity. Qed.

(** ** The sha is the same in every reading of a line *)

Lemma space_not_sha_char a : is_space a = true -> sha_char a = false.
Proof.
  destruct a as [[] [] [] [] [] [] [] []]; intros H; try reflexivity; discriminate H.
Qed.

Lemma run_of_forallb p s : run_of p s = true -> forallb p s = true.
Proof. intros H. apply run_of_spec in H. tauto. Qed.

Lemma forallb_weaken (p q : ascii -> bool) s :
  (forall a, p a = true -> q a = true) -> forallb p s = true -> forallb q s = true.
Proof.
  intros Hpq. rewrite !forallb_forall. auto.
Qed.

Lemma is_sha_chars s : is_sha s = true -> forallb sha_char s = true.
Proof.
  assert (Hw : forall a, is_word a = true -> sha_char a = true)
    by (intros a Ha; unfold sha_char; rewrite Ha; reflexivity).
  destruct s as [|a w]; [discriminate|]. unfold is_sha.
  destruct (is_char "^" a) eqn:Ha; intros H.
  - simpl. unfold sha_char at 1. rewrite Ha, orb_true_r. simpl.
    apply forallb_weaken with (p := is_word); auto using run_of_forallb.
  - apply forallb_weaken with (p := is_word); auto using run_of_forallb.
Qed.

Lemma whitespace_head ws :
  is_whitespace ws = true -> exists a x, ws = a :: x /\ is_space a = true.
Proof.
  destruct ws as [|a x]; [discriminate|]. simpl. intros H.
  apply andb_true_iff in H. destruct H. eauto.
Qed.

Lemma span_unique (q : ascii -> bool) u : forall u' a a' x x',
  u ++ a :: x = u' ++ a' :: x' ->
  forallb q u = true -> forallb q u' = true -> q a = false -> q a' = false ->
  u = u'.
Proof.
  induction u as [|b u IH]; intros [|b' u'] a a' x x' E Hu Hu' Ha Ha';
    simpl in *; try reflexivity.
  - injection E as -> _. apply andb_true_iff in Hu'. destruct Hu'. congruence.
  - injection E as -> _. apply andb_true_iff in Hu. destruct Hu. congruence.
  - injection E as -> E. apply andb_true_iff in Hu, Hu'.
    f_equal. eapply IH; try eassumption; tauto.
Qed.

Lemma sha_unique line f code f' code' :
  blame_grammar line f code -> blame_grammar line f' code' -> f_sha f = f_sha f'.
Proof.
  intros (ws1 & ws2 & ws3 & ws4 & ws5 & ws6 & -> & Hf & Hws)
         (ws1' & ws2' & ws3' & ws4' & ws5' & ws6' & E & Hf' & Hws').
  unfold well_formed in Hf, Hf'. rewrite !andb_true_iff in Hf, Hf'.
  simpl in Hws, Hws'. apply andb_true_iff in Hws, Hws'.
  destruct Hws as [H1 _], Hws' as [H1' _].
  apply whitespace_head in H1, H1'.
  destruct H1 as (a & x & -> & Ha), H1' as (a' & x' & -> & Ha').
  simpl in E. eapply span_unique with (q := sha_char); try eassumption.
  - apply is_sha_chars. tauto.
  - apply is_sha_chars. tauto.
  - apply space_not_sha_char. assumption.
  - apply space_not_sha_char. assumption.
Qed.

(** * The parser *)

Lemma groupdict_fields f :
  let d := groupdict_of f in
  dict_get d "sha" = Some (f_sha f) /\
  dict_get d "author" = Some (f_author f) /\
  dict_get d "date" = Some (f_date f) /\
  dict_get d "time" = Some (f_time f) /\
  dict_get d "timezone" = Some (f_timezone f) /\
  dict_get d "line_number" = Some (f_line_number f).
Proof. repeat split. Qed.

Lemma parse_blame_matching compiled line :
  matches_grammar line ->
  exists f code,
    snd (parse_blame (self_pattern compiled) line) = Ret (groupdict_of f) /\
    blame_grammar line f code.
Proof.
  intros Hg. rewrite parse_blame_eq. simpl.
  destruct (re_match prepare_pattern line) as [d|] eqn:Hm.
  - apply re_match_sound in Hm. destruct Hm as (f & code & -> & Hf). eauto.
  - exfalso. revert Hm. apply re_match_complete. assumption.
Qed.

Lemma parse_blame_mismatch compiled line :
  ~ matches_grammar line ->
  snd (parse_blame (self_pattern compiled) line) = Raise AttributeError.
Proof.
  intros Hn. rewrite parse_blame_eq. simpl. rewrite re_match_none; auto.
Qed.

Lemma parse_blame_returns compiled line d :
  snd (parse_blame (self_pattern compiled) line) = Ret d ->
  exists f code, d = groupdict_of f /\ blame_grammar line f code.
Proof.
  rewrite parse_blame_eq. simpl.
  destruct (re_match prepare_pattern line) as [d'|] eqn:Hm; [|discriminate].
  intros [= <-]. apply re_match_sound. assumption.
Qed.

Lemma sha_keeps_caret line f code rest :
  blame_grammar line f code -> line = "^"%char :: rest ->
  exists w, f_sha f = "^"%char :: w.
Proof.
  intros (ws1 & ws2 & ws3 & ws4 & ws5 & ws6 & -> & Hf & _) E.
  unfold well_formed in Hf. rewrite !andb_true_iff in Hf.
  destruct (f_sha f) as [|a w]; [intuition discriminate|].
  injection E as -> _. eauto.
Qed.

Lemma scenario_a_grammar :
  blame_grammar scenario_a
    (Fields (lit "abc1234") (lit "file.py       ") (lit "Alice Smith")
            (lit "2021-05-01") (lit "10:00:00") (lit "+0000") (lit "3"))
    (lit "some code").
Proof.
  exists (lit " "), (lit " "), (lit " "), (lit " "), (lit " "), (lit " ").
  repeat split.
Qed.

(** Scenario A: the record of the sample line. *)
Example parse_scenario_a :
  snd (parse_blame None scenario_a) =
  Ret (groupdict_of
         (Fields (lit "abc1234") (lit "file.py       ") (lit "Alice Smith")
                 (lit "2021-05-01") (lit "10:00:00") (lit "+0000") (lit "3"))).
Proof. vm_compute. reflexivity. Qed.

(** Scenario B: the caret of a boundary commit stays in the sha. *)
Example parse_scenario_b :
  snd (parse_blame None scenario_b) =
  Ret (groupdict_of
         (Fields (lit "^deadbeef") (lit "src/main.c") (lit "Bob Jones")
                 (lit "2019-12-31") (lit "23:59:59") (lit "-0530") (lit "12"))).
Proof. vm_compute. reflexivity. Qed.

(** C2.  On a line that does not match, [pattern.match] returns [None]
    and [m.groupdict()] raises [AttributeError]: the line is not dropped. *)
Theorem parse_blame_raises_on_scenario_c :
  snd (parse_blame None scenario_c) = Raise AttributeError /\
  ~ matches_grammar scenario_c.
Proof.
  assert (H : re_match prepare_pattern scenario_c = None) by (vm_compute; reflexivity).
  split.
  - change (parse_blame None scenario_c) with (parse_blame (self_pattern false) scenario_c).
    rewrite parse_blame_eq. cbn [snd]. rewrite H. reflexivity.
  - intros Hg. apply re_match_complete in Hg. congruence.
Qed.

(** * Text after the closing parenthesis *)

Lemma inside_tl tail a u : inside tail (a :: u) -> inside tail u.
Proof.
  intros (v & _ & ->). exists (v ++ [a]). split.
  - destruct v; discriminate.
  - rewrite <- app_assoc. reflexivity.
Qed.

Lemma inside_whole a u : inside (a :: u) u.
Proof. exists [a]. split; [discriminate | reflexivity]. Qed.

Section Inside.

Variable tail : str.
Variable k : cont.
Hypothesis k_fails : forall pos u d, inside tail u -> k pos u d = None.

Lemma at_least_inside lo pos u d : inside tail u -> at_least lo k pos u d = None.
Proof. intros H. unfold at_least. destruct (Nat.eqb lo 0); auto. Qed.

Lemma rep_greedy_inside p u : forall lo hi pos d,
  inside tail u -> rep_greedy p lo hi pos u d k = None.
Proof.
  induction u as [|a u IH]; intros lo hi pos d H; simpl.
  - apply at_least_inside. assumption.
  - rewrite IH by (eapply inside_tl; eassumption).
    rewrite at_least_inside by assumption.
    destruct (p a && hi_open hi); reflexivity.
Qed.

Lemma rep_lazy_inside p u : forall lo hi pos d,
  inside tail u -> rep_lazy p lo hi pos u d k = None.
Proof.
  induction u as [|a u IH]; intros lo hi pos d H; simpl;
    rewrite at_least_inside by assumption; [reflexivity|].
  rewrite IH by (eapply inside_tl; eassumption).
  destruct (p a && hi_open hi); reflexivity.
Qed.

End Inside.

(** A repetition that starts where the tail starts can only be empty. *)
Lemma rep_greedy_at_tail tail k p lo hi pos d :
  (forall pos u d, inside tail u -> k pos u d = None) ->
  rep_greedy p lo hi pos tail d k = at_least lo k pos tail d.
Proof.
  intros Hk. destruct tail as [|a u]; simpl; [reflexivity|].
  rewrite (rep_greedy_inside (a :: u) k Hk) by apply inside_whole.
  destruct (p a && hi_open hi); reflexivity.
Qed.

Lemma rep_lazy_at_tail tail k p lo hi pos d :
  (forall pos u d, inside tail u -> k pos u d = None) ->
  rep_lazy p lo hi pos tail d k = at_least lo k pos tail d.
Proof.
  intros Hk. destruct tail as [|a u]; simpl.
  - destruct (at_least lo k pos [] d); reflexivity.
  - rewrite (rep_lazy_inside (a :: u) k Hk) by apply inside_whole.
    destruct (at_least lo k pos (a :: u) d); destruct (p a && hi_open hi); reflexivity.
Qed.

Lemma exec_inside tail r : forall k,
  (forall pos u d, inside tail u -> k pos u d = None) ->
  forall pos u d, inside tail u -> exec r pos u d k = None.
Proof.
  induction r as [|p|g lo hi p|r1 IH1 r2 IH2|name r1 IH1];
    intros k Hk pos u d Hu; simpl.
  - destruct (Nat.eqb pos 0); auto.
  - destruct u as [|a u]; [reflexivity|].
    destruct (p a); [|reflexivity]. apply Hk. eapply inside_tl; eassumption.
  - destruct g; [eapply rep_greedy_inside | eapply rep_lazy_inside]; eassumption.
  - apply IH1; [|assumption]. intros pos' u' d' Hu'. apply IH2; assumption.
  - apply IH1; [|assumption]. intros pos' u' d' Hu'. apply Hk. assumption.
Qed.

Section Tails.

Variables t1 t2 : str.
Variable n : nat.

Lemma at_least_blind lo k1 k2 pos t d :
  tail_blind t1 t2 n k1 k2 -> pos + length t = n ->
  at_least lo k1 pos (t ++ t1) d = at_least lo k2 pos (t ++ t2) d.
Proof.
  intros (Hk & _ & _) Hpos. unfold at_least. destruct (Nat.eqb lo 0); auto.
Qed.

Lemma rep_greedy_blind p t : forall lo hi pos d k1 k2,
  tail_blind t1 t2 n k1 k2 -> pos + length t = n ->
  rep_greedy p lo hi pos (t ++ t1) d k1 = rep_greedy p lo hi pos (t ++ t2) d k2.
Proof.
  induction t as [|a t IH]; intros lo hi pos d k1 k2 Hk Hpos.
  - simpl app. rewrite !rep_greedy_at_tail by apply Hk.
    apply (at_least_blind lo k1 k2 pos [] d Hk Hpos).
  - pose proof (at_least_blind lo k1 k2 pos (a :: t) d Hk Hpos) as E.
    cbn [app rep_greedy] in *. cbn [length] in Hpos.
    rewrite (IH (pred lo) (hi_pred hi) (S pos) d k1 k2 Hk) by lia.
    rewrite E. reflexivity.
Qed.

Lemma rep_lazy_blind p t : forall lo hi pos d k1 k2,
  tail_blind t1 t2 n k1 k2 -> pos + length t = n ->
  rep_lazy p lo hi pos (t ++ t1) d k1 = rep_lazy p lo hi pos (t ++ t2) d k2.
Proof.
  induction t as [|a t IH]; intros lo hi pos d k1 k2 Hk Hpos.
  - simpl app. rewrite !rep_lazy_at_tail by apply Hk.
    apply (at_least_blind lo k1 k2 pos [] d Hk Hpos).
  - pose proof (at_least_blind lo k1 k2 pos (a :: t) d Hk Hpos) as E.
    cbn [app rep_lazy] in *. cbn [length] in Hpos.
    rewrite (IH (pred lo) (hi_pred hi) (S pos) d k1 k2 Hk) by lia.
    rewrite E. reflexivity.
Qed.

Lemma chr_at_tail tail p k pos d :
  (forall pos u d, inside tail u -> k pos u d = None) ->
  exec (Chr p) pos tail d k = None.
Proof.
  intros Hk. destruct tail as [|a u]; simpl; [reflexivity|].
  destruct (p a); [|reflexivity]. apply Hk, inside_whole.
Qed.

Lemma firstn_before (t t' tail : str) pos pos' :
  pos + length t = n -> pos' + length t' = n ->
  firstn (pos' - pos) (t ++ tail) = firstn (pos' - pos) t.
Proof.
  intros H H'. rewrite firstn_app.
  replace (pos' - pos - length t) with 0 by lia. simpl. apply app_nil_r.
Qed.

(** The matcher does not see the tail unless a match runs into it. *)
Lemma exec_blind r : forall k1 k2,
  tail_blind t1 t2 n k1 k2 ->
  forall pos t d, pos + length t = n ->
    exec r pos (t ++ t1) d k1 = exec r pos (t ++ t2) d k2.
Proof.
  induction r as [|p|g lo hi p|r1 IH1 r2 IH2|name r1 IH1];
    intros k1 k2 Hk pos t d Hpos.
  - simpl. destruct (Nat.eqb pos 0); [apply Hk; assumption | reflexivity].
  - destruct t as [|a t].
    + simpl app. rewrite !chr_at_tail by apply Hk. reflexivity.
    + simpl. destruct (p a); [|reflexivity]. apply Hk. simpl in Hpos. lia.
  - simpl. destruct g; [apply rep_greedy_blind | apply rep_lazy_blind]; assumption.
  - simpl. apply IH1; [|assumption]. repeat split.
    + intros pos' t' d' Hpos'. apply IH2; assumption.
    + intros pos' u d' Hu. eapply exec_inside; [apply Hk | eassumption].
    + intros pos' u d' Hu. eapply exec_inside; [apply Hk | eassumption].
  - simpl. apply IH1; [|assumption]. repeat split.
    + intros pos' t' d' Hpos'.
      rewrite !(firstn_before t t' _ pos pos' Hpos Hpos'). apply Hk. assumption.
    + intros pos' u d' Hu. apply Hk. assumption.
    + intros pos' u d' Hu. apply Hk. assumption.
Qed.

Lemma tail_blind_exec r k1 k2 :
  tail_blind t1 t2 n k1 k2 ->
  tail_blind t1 t2 n (fun pos s d => exec r pos s d k1)
                     (fun pos s d => exec r pos s d k2).
Proof.
  intros Hk. repeat split.
  - intros pos t d Hpos. apply exec_blind; assumption.
  - intros pos u d Hu. eapply exec_inside; [apply Hk | eassumption].
  - intros pos u d Hu. eapply exec_inside; [apply Hk | eassumption].
Qed.

End Tails.

Lemma no_rparen_inside x u a :
  no_rparen x = true -> inside (" "%char :: x) (a :: u) -> is_char ")" a = false.
Proof.
  intros Hx (v & Hv & E). destruct v as [|b v]; [congruence|].
  injection E as _ ->. unfold no_rparen in Hx.
  rewrite forallb_app in Hx. apply andb_true_iff in Hx. destruct Hx as [_ Hx].
  simpl in Hx. apply andb_true_iff in Hx. destruct Hx as [Ha _].
  apply negb_true_iff in Ha. assumption.
Qed.

Lemma closing_blind x1 x2 n :
  no_rparen x1 = true -> no_rparen x2 = true ->
  tail_blind (" "%char :: x1) (" "%char :: x2) n
    (fun pos s d => exec closing pos s d accept)
    (fun pos s d => exec closing pos s d accept).
Proof.
  intros H1 H2. repeat split.
  - intros pos t d _. destruct t as [|a [|b t]]; reflexivity.
  - intros pos u d Hu. destruct u as [|a u]; simpl; [reflexivity|].
    rewrite (no_rparen_inside x1 u a H1 Hu). reflexivity.
  - intros pos u d Hu. destruct u as [|a u]; simpl; [reflexivity|].
    rewrite (no_rparen_inside x2 u a H2 Hu). reflexivity.
Qed.

Lemma ends_with_blind t1 t2 n last r :
  ends_with last r ->
  tail_blind t1 t2 n (fun pos s d => exec last pos s d accept)
                     (fun pos s d => exec last pos s d accept) ->
  tail_blind t1 t2 n (fun pos s d => exec r pos s d accept)
                     (fun pos s d => exec r pos s d accept).
Proof.
  induction 1 as [|a r _ IH]; intros Hlast; [assumption|].
  apply (tail_blind_exec t1 t2 n a) in IH; assumption.
Qed.

Lemma pattern_ends_closing : ends_with closing prepare_pattern.
Proof.
  unfold prepare_pattern, closing.
  repeat first [apply ends_here | apply ends_later].
Qed.

(** Two lines that differ only after the space that ends the match, and
    hold no closing parenthesis there, are matched alike. *)
Lemma re_match_tail q x1 x2 :
  no_rparen x1 = true -> no_rparen x2 = true ->
  re_match prepare_pattern (q ++ " "%char :: x1) =
  re_match prepare_pattern (q ++ " "%char :: x2).
Proof.
  intros H1 H2.
  destruct (ends_with_blind _ _ (length q) _ _ pattern_ends_closing
              (closing_blind x1 x2 (length q) H1 H2)) as (H & _ & _).
  apply (H 0 q []). reflexivity.
Qed.

Lemma grammar_ends_with_space u f :
  blame_grammar u f [] -> exists q, u = q ++ [" "%char].
Proof.
  intros (ws1 & ws2 & ws3 & ws4 & ws5 & ws6 & -> & _).
  change (lit ") " ++ []) with ([")"%char] ++ [" "%char]).
  eexists. rewrite !app_assoc. reflexivity.
Qed.


Lemma two_readings_grammar :
  blame_grammar two_readings_prefix
    (Fields (lit "abc") (lit "f") (lit "Al") (lit "2021-05-01") (lit "10:00:00")
            (lit "+0000") (lit "3")) [].
Proof.
  exists (lit " "), (lit " "), (lit " "), (lit " "), (lit " "), (lit " ").
  repeat split.
Qed.



Example posix_paths :
  posix_basename sample_path = lit "main.c" /\
  posix_dirname sample_path = lit "/home/user/project/src" /\
  posix_basename (lit "main.c") = lit "main.c" /\
  posix_dirname (lit "main.c") = [] /\
  posix_dirname (lit "/main.c") = lit "/".
Proof. repeat split. Qed.

Example splitlines_sample :
  splitlines (lit "a
b") = [lit "a"; lit "b"] /\
  splitlines scenario_c = [scenario_c] /\
  splitlines [] = [].
Proof. repeat split. Qed.

(** * The mapper *)

Lemma digit_value_range a : is_digit a = true -> (0 <= digit_value a <= 9)%Z.
Proof.
  unfold is_digit, in_range, digit_value. rewrite andb_true_iff, !N.leb_le. lia.
Qed.

Lemma fold_digits_nonneg s : forall n,
  forallb is_digit s = true -> (0 <= n)%Z ->
  (0 <= fold_left (fun n a => 10 * n + digit_value a) s n)%Z.
Proof.
  induction s as [|a s IH]; intros n Hs Hn; cbn [fold_left forallb] in *; [assumption|].
  apply andb_true_iff in Hs. destruct Hs as [Ha Hs].
  apply IH; [assumption|]. apply digit_value_range in Ha. lia.
Qed.

Lemma py_int_digits s :
  is_line_number s = true -> py_int s = Ret (decimal s) /\ (0 <= decimal s)%Z.
Proof.
  intros Hs. unfold py_int. unfold is_line_number in Hs. rewrite Hs.
  split; [reflexivity|].
  apply fold_digits_nonneg; [apply run_of_forallb; assumption | lia].
Qed.

Lemma well_formed_line_number f : well_formed f = true -> is_line_number (f_line_number f) = true.
Proof. unfold well_formed. rewrite !andb_true_iff. tauto. Qed.

Lemma make_phantom_eq max_len f n :
  py_int (f_line_number f) = Ret n ->
  make_phantom max_len (groupdict_of f) =
  Ret (Phantom (n - 1) (f_sha f)
         (f_author f ++ str_mul nbsp (max_len - len (f_author f)))
         (f_date f) (f_time f)).
Proof.
  intros Hn. unfold make_phantom, dict_item. simpl. rewrite Hn. reflexivity.
Qed.

(** C5.  For a parsed record whose line number reads as [n], the row
    handed to the host is [n - 1], and it is not negative when [n >= 1]. *)
Theorem target_line_index (max_len : Z) (f : fields) :
  well_formed f = true ->
  exists n p,
    py_int (f_line_number f) = Ret n /\
    make_phantom max_len (groupdict_of f) = Ret p /\
    ph_line p = (n - 1)%Z /\
    ((1 <= n)%Z -> (0 <= ph_line p)%Z).
Proof.
  intros Hf. destruct (py_int_digits _ (well_formed_line_number f Hf)) as (Hn & _).
  exists (decimal (f_line_number f)). eexists. split; [assumption|].
  split; [apply (make_phantom_eq max_len f _ Hn)|].
  simpl. split; [reflexivity | lia].
Qed.

Lemma target_line_index_witness :
  well_formed (Fields (lit "abc1234") (lit "file.py") (lit "Alice Smith")
                 (lit "2021-05-01") (lit "10:00:00") (lit "+0000") (lit "3")) = true /\
  exists n p,
    py_int (lit "3") = Ret n /\
    make_phantom 11
      (groupdict_of (Fields (lit "abc1234") (lit "file.py") (lit "Alice Smith")
                       (lit "2021-05-01") (lit "10:00:00") (lit "+0000") (lit "3")))
      = Ret p /\
    ph_line p = (n - 1)%Z /\
    ((1 <= n)%Z -> (0 <= ph_line p)%Z).
Proof.
  split; [reflexivity|].
  apply (target_line_index 11
           (Fields (lit "abc1234") (lit "file.py") (lit "Alice Smith")
              (lit "2021-05-01") (lit "10:00:00") (lit "+0000") (lit "3"))).
  reflexivity.
Defined.

(** Scenario A: line 3 goes to row 2. *)
Example scenario_a_row :
  (d <- snd (parse_blame None scenario_a) ;; p <- make_phantom 11 d ;; Ret (ph_line p))
  = Ret 2%Z.
Proof. vm_compute. reflexivity. Qed.

Lemma fold_max_spec xs : forall x,
  let m := fold_left Z.max xs x in
  (x <= m)%Z /\ Forall (fun y => (y <= m)%Z) xs /\ (m = x \/ In m xs).
Proof.
  induction xs as [|y xs IH]; intros x; simpl.
  - split; [lia|]. split; [constructor | left; reflexivity].
  - destruct (IH (Z.max x y)) as (H1 & H2 & H3). split; [lia|]. split.
    + constructor; [lia | assumption].
    + destruct H3 as [H3|H3]; [|auto].
      destruct (Z.max_spec x y) as [[_ E]|[_ E]]; rewrite E in *;
        [right; left; symmetry; assumption | left; assumption].
Qed.

Lemma py_max_spec xs :
  xs <> [] ->
  exists m, py_max xs = Ret m /\ Forall (fun y => (y <= m)%Z) xs /\ In m xs.
Proof.
  destruct xs as [|x xs]; [congruence|]. intros _.
  destruct (fold_max_spec xs x) as (H1 & H2 & H3).
  exists (fold_left Z.max xs x). split; [reflexivity|]. split.
  - constructor; assumption.
  - simpl. destruct H3; auto.
Qed.

Lemma author_lens fs :
  mapM (fun b => author <- dict_item b "author" ;; Ret (len author))
       (map groupdict_of fs)
  = Ret (map (fun f => len (f_author f)) fs).
Proof.
  induction fs as [|f fs IH]; [reflexivity|].
  cbn [map mapM]. rewrite IH. reflexivity.
Qed.

(** The phantom of a record, for the column width [max_len]. *)
Lemma make_phantoms_eq max_len fs :
  forallb well_formed fs = true ->
  mapM (make_phantom max_len) (map groupdict_of fs) =
  Ret (map (fun f => Phantom (decimal (f_line_number f) - 1) (f_sha f)
                       (f_author f ++ str_mul nbsp (max_len - len (f_author f)))
                       (f_date f) (f_time f)) fs).
Proof.
  induction fs as [|f fs IH]; intros Hfs; [reflexivity|].
  cbn [forallb] in Hfs. apply andb_true_iff in Hfs. destruct Hfs as [Hf Hfs].
  cbn [map mapM].
  rewrite (make_phantom_eq max_len f (decimal (f_line_number f)))
    by (apply py_int_digits, well_formed_line_number, Hf).
  rewrite (IH Hfs). reflexivity.
Qed.

Lemma len_app s t : len (s ++ t) = (len s + len t)%Z.
Proof. unfold len. rewrite length_app. lia. Qed.

Lemma str_mul_length s n :
  (0 <= n)%Z -> len (str_mul s n) = (len s * n)%Z.
Proof.
  intros Hn. unfold str_mul, len. rewrite <- (Z2Nat.id n) at 2 by assumption.
  induction (Z.to_nat n) as [|k IH]; simpl.
  - lia.
  - rewrite length_app. lia.
Qed.

(** C6.  For a non-empty sequence of parsed records, the column width is
    the largest author length; every author is followed by exactly
    (width - length) copies of [&nbsp;], a number that is not negative, so
    that author and padding together fill the width. *)
Theorem author_padding (fs : list fields) :
  fs <> [] -> forallb well_formed fs = true ->
  exists m ps,
    max_author_len (map groupdict_of fs) = Ret m /\
    make_phantoms (map groupdict_of fs) = Ret ps /\
    Forall (fun f => (len (f_author f) <= m)%Z) fs /\
    Exists (fun f => len (f_author f) = m) fs /\
    Forall2 (fun f p =>
               let pad := (m - len (f_author f))%Z in
               (0 <= pad)%Z /\
               ph_user p = f_author f ++ str_mul nbsp pad /\
               (len (f_author f) + pad = m)%Z /\
               len (ph_user p) = (len (f_author f) + 6 * pad)%Z) fs ps.
Proof.
  intros Hne Hfs.
  destruct (py_max_spec (map (fun f => len (f_author f)) fs)) as (m & Hm & Hle & Hin).
  { destruct fs; [congruence | discriminate]. }
  assert (Hlen : max_author_len (map groupdict_of fs) = Ret m)
    by (unfold max_author_len; rewrite author_lens; exact Hm).
  exists m. eexists. split; [exact Hlen|]. split.
  { unfold make_phantoms. rewrite Hlen. cbn [bind]. apply make_phantoms_eq, Hfs. }
  rewrite Forall_map in Hle. split; [exact Hle|]. split.
  { apply in_map_iff in Hin. destruct Hin as (f & E & Hf).
    apply Exists_exists. eauto. }
  clear - Hle. induction Hle as [|f fs Hf _ IH]; cbn [map]; constructor; [|exact IH].
  cbn [ph_user]. repeat split; try lia.
  rewrite len_app, str_mul_length by lia. change (len nbsp) with 6%Z. lia.
Qed.

Lemma author_padding_witness :
  scenario_d <> [] /\ forallb well_formed scenario_d = true /\
  exists m ps,
    max_author_len (map groupdict_of scenario_d) = Ret m /\
    make_phantoms (map groupdict_of scenario_d) = Ret ps /\
    Forall (fun f => (len (f_author f) <= m)%Z) scenario_d /\
    Exists (fun f => len (f_author f) = m) scenario_d /\
    Forall2 (fun f p =>
               let pad := (m - len (f_author f))%Z in
               (0 <= pad)%Z /\
               ph_user p = f_author f ++ str_mul nbsp pad /\
               (len (f_author f) + pad = m)%Z /\
               len (ph_user p) = (len (f_author f) + 6 * pad)%Z) scenario_d ps.
Proof.
  split; [discriminate|]. split; [reflexivity|].
  apply (author_padding scenario_d); [discriminate | reflexivity].
Defined.

(** Scenario D: the width is 9 and "Al" gets seven [&nbsp;]. *)
Example scenario_d_padding :
  max_author_len (map groupdict_of scenario_d) = Ret 9%Z /\
  option_map (map ph_user)
    (match make_phantoms (map groupdict_of scenario_d) with
     | Ret ps => Some ps
     | Raise _ => None
     end)
  = Some [lit "Al&nbsp;&nbsp;&nbsp;&nbsp;&nbsp;&nbsp;&nbsp;"; lit "Bob Jones"].
Proof. split; vm_compute; reflexivity. Qed.

(** * The blame invocation *)

(** C4.  [get_blame] runs [git blame --show-name --minimal -w], then the
    configured flags in their order (none when the setting is absent),
    then [--] and the base name of the path, in the directory of the
    resolved path; its outcome is the outcome of that subprocess. *)
Theorem get_blame_invocation
    (bn dn rp : str -> str) (tool : list str -> str -> result str)
    (flags : list str) (path : str) (ed : editor) :
  let fixed := [lit "git"; lit "blame"; lit "--show-name"; lit "--minimal"; lit "-w"] in
  let cwd := dn (rp path) in
  get_blame (Environment bn dn rp (Some flags) tool) path ed =
    (record_call (fixed ++ flags ++ [lit "--"; bn path]) cwd ed,
     tool (fixed ++ flags ++ [lit "--"; bn path]) cwd) /\
  get_blame (Environment bn dn rp None tool) path ed =
    (record_call (fixed ++ [lit "--"; bn path]) cwd ed,
     tool (fixed ++ [lit "--"; bn path]) cwd).
Proof.
  split; unfold get_blame; cbn [custom_blame_flags basename dirname realpath check_output].
  - rewrite <- app_assoc. reflexivity.
  - rewrite app_nil_r. reflexivity.
Qed.

Example get_blame_sample :
  fst (get_blame (sample_env (Some [lit "-M"; lit "-C"]) (Ret [])) sample_path sample_editor)
  = record_call
      [lit "git"; lit "blame"; lit "--show-name"; lit "--minimal"; lit "-w";
       lit "-M"; lit "-C"; lit "--"; lit "main.c"]
      (lit "/home/user/project/src") sample_editor.
Proof. reflexivity. Qed.

(** * The command *)

Lemma run_hidden env self ed :
  suitable ed = true -> settings_get ed = false ->
  run env self ed =
  match get_blame env (file_name ed) (erase_phantoms ed) with
  | (ed', Raise e) => (self, communicate_error (ReportExn e) ed', Ret tt)
  | (ed', Ret blame_output) =>
      match parse_lines (pattern self) (splitlines blame_output) with
      | (pat, Raise e) => (Command pat, ed', Raise e)
      | (pat, Ret blames) =>
          match filter truthy blames with
          | [] => (Command pat, communicate_error (ReportMsg parse_failure) ed', Ret tt)
          | _ :: _ =>
              match make_phantoms (filter truthy blames) with
              | Raise e => (Command pat, ed', Raise e)
              | Ret ps =>
                  (Command pat,
                   scroll_left (settings_set true (phantom_set_update ps ed')),
                   Ret tt)
              end
          end
      end
  end.
Proof.
  intros Hs Hd. unfold run, view_is_suitable. rewrite Hs. cbn [negb].
  replace (settings_get (erase_phantoms ed)) with false by (symmetry; exact Hd).
  reflexivity.
Qed.

(** The first line that does not match ends the command with an
    [AttributeError]: nothing is reported and nothing is displayed. *)
Lemma run_unparseable env compiled ed output line lines :
  suitable ed = true -> settings_get ed = false ->
  snd (get_blame env (file_name ed) (erase_phantoms ed)) = Ret output ->
  splitlines output = line :: lines ->
  ~ matches_grammar line ->
  run env (Command (self_pattern compiled)) ed =
  (Command (self_pattern true),
   fst (get_blame env (file_name ed) (erase_phantoms ed)),
   Raise AttributeError).
Proof.
  intros Hs Hd Hout Hlines Hline. rewrite (run_hidden env _ ed Hs Hd).
  destruct (get_blame env (file_name ed) (erase_phantoms ed)) as [ed' out].
  cbn [fst snd] in *. subst out. rewrite Hlines. cbn [parse_lines pattern].
  pose proof (parse_blame_mismatch compiled line Hline) as Hp.
  rewrite parse_blame_eq in Hp |- *. cbn [snd] in Hp. rewrite Hp. reflexivity.
Qed.

(** Output without any line is reported as a parse failure. *)
Lemma run_no_lines env self ed output :
  suitable ed = true -> settings_get ed = false ->
  snd (get_blame env (file_name ed) (erase_phantoms ed)) = Ret output ->
  splitlines output = [] ->
  run env self ed =
  (self,
   communicate_error (ReportMsg parse_failure)
     (fst (get_blame env (file_name ed) (erase_phantoms ed))),
   Ret tt).
Proof.
  intros Hs Hd Hout Hlines. rewrite (run_hidden env _ ed Hs Hd).
  destruct (get_blame env (file_name ed) (erase_phantoms ed)) as [ed' out].
  cbn [fst snd] in *. subst out. rewrite Hlines. cbn [parse_lines filter].
  destruct self. reflexivity.
Qed.

(** C3.  On the output of scenario C the command does not report the
    parse failure: the [AttributeError] of [parse_blame] escapes [run].
    Nothing is displayed and the flag stays unset. *)
Theorem run_scenario_c_raises :
  let '(_, ed, r) := run (sample_env None (Ret scenario_c)) fresh_command sample_editor in
  r = Raise AttributeError /\ errors ed = [] /\
  phantoms ed = [] /\ settings_get ed = false.
Proof. vm_compute. repeat split. Qed.

(** A run on blame output of two lines: both are displayed, on rows 2
    and 11, and the flag is set. *)
Example run_displays :
  let output := scenario_a ++ ["010"%char] ++ scenario_b ++ ["010"%char] in
  let '(_, ed, r) := run (sample_env None (Ret output)) fresh_command sample_editor in
  r = Ret tt /\ map ph_line (phantoms ed) = [2%Z; 11%Z] /\
  map ph_user (phantoms ed) = [lit "Alice Smith"; lit "Bob Jones&nbsp;&nbsp;"] /\
  displayed ed = Some true /\ errors ed = [].
Proof. vm_compute. repeat split. Qed.

(** A failing subprocess is reported and nothing is displayed. *)
Example run_tool_failure :
  let '(_, ed, r) :=
    run (sample_env None (Raise (ToolError scenario_c))) fresh_command sample_editor in
  r = Ret tt /\ errors ed = [ReportExn (ToolError scenario_c)] /\
  phantoms ed = [] /\ displayed ed = None.
Proof. vm_compute. repeat split. Qed.

(** C10, as the code has it.  On a view whose flag is set, the command
    returns at once when the view is not suitable, and changes nothing;
    on a suitable view it clears the phantoms, sets the flag to false and
    returns.  Either way the command object is untouched, no subprocess is
    run and nothing is reported. *)
Theorem run_toggles_off (env : environment) (self : command) (ed : editor) :
  settings_get ed = true ->
  run env self ed =
    (self, if suitable ed then settings_set false (erase_phantoms ed) else ed, Ret tt) /\
  let ed' := snd (fst (run env self ed)) in
  calls ed' = calls ed /\ errors ed' = errors ed /\ status ed' = status ed /\
  viewport ed' = viewport ed /\ file_name ed' = file_name ed /\
  (suitable ed = true -> phantoms ed' = [] /\ displayed ed' = Some false).
Proof.
  intros Hd.
  assert (E : run env self ed =
    (self, if suitable ed then settings_set false (erase_phantoms ed) else ed, Ret tt)).
  { unfold run, view_is_suitable. destruct (suitable ed); cbn [negb]; [|reflexivity].
    replace (settings_get (erase_phantoms ed)) with true by (symmetry; exact Hd).
    reflexivity. }
  split; [exact E|]. rewrite E. cbn [fst snd].
  destruct (suitable ed); repeat split; discriminate.
Qed.

Lemma run_toggles_off_witness :
  settings_get displaying_editor = true /\
  run (sample_env None (Ret scenario_a)) fresh_command displaying_editor =
    (fresh_command,
     if suitable displaying_editor
     then settings_set false (erase_phantoms displaying_editor)
     else displaying_editor,
     Ret tt) /\
  let ed' := snd (fst (run (sample_env None (Ret scenario_a)) fresh_command
                         displaying_editor)) in
  calls ed' = calls displaying_editor /\ errors ed' = errors displaying_editor /\
  status ed' = status displaying_editor /\
  viewport ed' = viewport displaying_editor /\
  file_name ed' = file_name displaying_editor /\
  (suitable displaying_editor = true ->
   phantoms ed' = [] /\ displayed ed' = Some false).
Proof.
  split; [reflexivity|].
  apply (run_toggles_off (sample_env None (Ret scenario_a)) fresh_command
           displaying_editor).
  reflexivity.
Defined.

(** C10, as stated, fails on a view that is not suitable: the flag is
    set, and after the command the phantoms and the flag are as before. *)
Lemma run_unsuitable_keeps_display :
  settings_get unsuitable_editor = true /\
  let '(_, ed, _) :=
    run (sample_env None (Ret scenario_a)) fresh_command unsuitable_editor in
  phantoms ed = [sample_phantom] /\ settings_get ed = true.
Proof. repeat split. Qed.

(** * Erasing *)

Lemma erase_all_effect ed :
  phantoms (BlameEraseAll.run ed) = [] /\ displayed (BlameEraseAll.run ed) = displayed ed /\
  status (BlameEraseAll.run ed) = BlameEraseAll.erase_notice :: status ed.
Proof. repeat split. Qed.

(** C7.  When annotations are displayed, a modification of the buffer
    reaches the listener, which erases the phantoms and the flag. *)
Theorem modification_clears_display (ed : editor) :
  settings_get ed = true ->
  phantoms (buffer_modified ed) = [] /\
  displayed (buffer_modified ed) = None /\
  settings_get (buffer_modified ed) = false.
Proof.
  intros Hd. unfold buffer_modified, BlameEraseAllListener.is_applicable. rewrite Hd. repeat split.
Qed.

Lemma modification_clears_display_witness :
  settings_get displaying_editor = true /\
  phantoms (buffer_modified displaying_editor) = [] /\
  displayed (buffer_modified displaying_editor) = None /\
  settings_get (buffer_modified displaying_editor) = false.
Proof.
  split; [reflexivity|].
  apply (modification_clears_display displaying_editor). reflexivity.
Defined.

(** After a modification the flag is never set. *)
Lemma modification_unsets_flag ed : settings_get (buffer_modified ed) = false.
Proof.
  unfold buffer_modified, BlameEraseAllListener.is_applicable.
  destruct (settings_get ed) eqn:Hd; [reflexivity | exact Hd].
Qed.

(** The command displays, the modification clears. *)
Example display_then_modify :
  let output := scenario_a ++ ["010"%char] in
  let '(_, ed, _) := run (sample_env None (Ret output)) fresh_command sample_editor in
  length (phantoms ed) = 1 /\ settings_get ed = true /\
  phantoms (buffer_modified ed) = [] /\ settings_get (buffer_modified ed) = false.
Proof. vm_compute. repeat split. Qed.

(** C8.  [BlameEraseAll.run] removes the phantoms and leaves the flag
    set; the next [BlameShowAll.run] then takes the toggle-off path and
    displays nothing. *)
Theorem erase_all_leaves_flag :
  let ed := BlameEraseAll.run displaying_editor in
  phantoms ed = [] /\ settings_get ed = true /\
  on_phantom_close (lit "close") displaying_editor = ed /\
  let '(_, ed', _) := run (sample_env None (Ret scenario_a)) fresh_command ed in
  phantoms ed' = [] /\ calls ed' = [].
Proof. vm_compute. repeat split. Qed.

(** * Which reading the matcher picks *)

(** A greedy repetition hands the longest run that lets the rest match. *)
Lemma rep_greedy_first p s : forall lo hi pos d k r,
  rep_greedy p lo hi pos s d k = Some r ->
  exists u s', s = u ++ s' /\ forallb p u = true /\ lo <= length u /\
    hi_ok hi (length u) /\ k (pos + length u) s' d = Some r /\
    forall u' s'', s = u' ++ s'' -> forallb p u' = true -> hi_ok hi (length u') ->
      length u < length u' -> k (pos + length u') s'' d = None.
Proof.
  induction s as [|a s IH]; intros lo hi pos d k r H.
  - simpl in H. apply at_least_some in H. destruct H as [-> H].
    exists [], []. simpl. rewrite Nat.add_0_r. repeat split; auto.
    + destruct hi; simpl; lia.
    + intros u' s'' E _ _ Hlen. destruct u'; [simpl in Hlen; lia | discriminate].
  - simpl in H. destruct (p a && hi_open hi) eqn:Hp.
    + destruct (rep_greedy p (pred lo) (hi_pred hi) (S pos) s d k) as [r'|] eqn:Hrec.
      * injection H as <-. apply IH in Hrec.
        destruct Hrec as (u & s' & -> & Hu & Hlo & Hhi & Hk & Hfirst).
        apply andb_true_iff in Hp. destruct Hp as [Hpa Hopen].
        exists (a :: u), s'. simpl. rewrite Hpa, Hu.
        replace (pos + S (length u)) with (S pos + length u) by lia.
        repeat split; auto using hi_open_ok; try lia.
        intros u' s'' E Hu' Hhi' Hlen. destruct u' as [|b u']; [simpl in Hlen; lia|].
        simpl in E. injection E as <- E. simpl in Hu', Hhi', Hlen.
        apply andb_true_iff in Hu'. destruct Hu' as [_ Hu'].
        apply hi_ok_open in Hhi'. destruct Hhi' as [_ Hhi'].
        replace (pos + length (a :: u')) with (S pos + length u') by (simpl; lia).
        apply (Hfirst u' s''); auto. lia.
      * apply at_least_some in H. destruct H as [-> H].
        exists [], (a :: s). simpl. rewrite Nat.add_0_r. repeat split; auto.
        { destruct hi; simpl; lia. }
        intros u' s'' E Hu' Hhi' Hlen. destruct u' as [|b u']; [simpl in Hlen; lia|].
        simpl in E. injection E as <- ->. simpl in Hu', Hhi'.
        apply andb_true_iff in Hu'. destruct Hu' as [_ Hu'].
        apply hi_ok_open in Hhi'. destruct Hhi' as [_ Hhi'].
        destruct (k (pos + length (a :: u')) s'' d) eqn:Hk; [|reflexivity].
        exfalso. revert Hrec.
        apply rep_greedy_complete; [assumption | simpl; lia | assumption |].
        replace (S pos + length u') with (pos + length (a :: u')) by (simpl; lia).
        rewrite Hk. discriminate.
    + apply at_least_some in H. destruct H as [-> H].
      exists [], (a :: s). simpl. rewrite Nat.add_0_r. repeat split; auto.
      { destruct hi; simpl; lia. }
      intros u' s'' E Hu' Hhi' Hlen. destruct u' as [|b u']; [simpl in Hlen; lia|].
      simpl in E. injection E as <- ->. simpl in Hu', Hhi'.
      apply andb_true_iff in Hu'. destruct Hu' as [Hpa _].
      apply hi_ok_open in Hhi'. destruct Hhi' as [Hopen _].
      rewrite Hpa, Hopen in Hp. discriminate.
Qed.

(** A lazy repetition hands the shortest run that lets the rest match. *)
Lemma rep_lazy_first p s : forall lo hi pos d k r,
  rep_lazy p lo hi pos s d k = Some r ->
  exists u s', s = u ++ s' /\ forallb p u = true /\ lo <= length u /\
    hi_ok hi (length u) /\ k (pos + length u) s' d = Some r /\
    forall u' s'', s = u' ++ s'' -> lo <= length u' ->
      length u' < length u -> k (pos + length u') s'' d = None.
Proof.
  assert (Hbase : forall lo hi pos s d k r,
    at_least lo k pos s d = Some r ->
    exists u s', s = u ++ s' /\ forallb p u = true /\ lo <= length u /\
      hi_ok hi (length u) /\ k (pos + length u) s' d = Some r /\
      forall u' s'', s = u' ++ s'' -> lo <= length u' ->
        length u' < length u -> k (pos + length u') s'' d = None).
  { intros lo hi pos s0 d k r H. apply at_least_some in H. destruct H as [-> H].
    exists [], s0. simpl. rewrite Nat.add_0_r. repeat split; auto.
    - destruct hi; simpl; lia.
    - intros; lia. }
  induction s as [|a s IH]; intros lo hi pos d k r H; simpl in H.
  - destruct (at_least lo k pos [] d) eqn:Hk; [|discriminate].
    injection H as <-. eapply Hbase; eassumption.
  - destruct (at_least lo k pos (a :: s) d) eqn:Hk.
    + injection H as <-. eapply Hbase; eassumption.
    + destruct (p a && hi_open hi) eqn:Hp; [|discriminate].
      apply IH in H. destruct H as (u & s' & -> & Hu & Hlo & Hhi & Hk' & Hfirst).
      apply andb_true_iff in Hp. destruct Hp as [Hpa Hopen].
      exists (a :: u), s'. simpl. rewrite Hpa, Hu.
      replace (pos + S (length u)) with (S pos + length u) by lia.
      repeat split; auto using hi_open_ok; try lia.
      intros u' s'' E Hlo' Hlen. destruct u' as [|b u'].
      * simpl in E. subst s''. assert (lo = 0) as -> by (simpl in Hlo'; lia).
        simpl. rewrite Nat.add_0_r. exact Hk.
      * simpl in E. injection E as <- E. simpl in Hlo', Hlen.
        replace (pos + length (a :: u')) with (S pos + length u') by (simpl; lia).
        apply (Hfirst u' s''); auto; lia.
Qed.

Lemma matches_after_author pos d ws3 date ws4 time ws5 tz ws6 ln :
  is_whitespace ws3 = true -> is_date date = true ->
  is_whitespace ws4 = true -> is_time time = true ->
  is_whitespace ws5 = true -> is_timezone tz = true ->
  is_whitespace ws6 = true -> is_line_number ln = true ->
  matches after_author pos
    (ws3 ++ date ++ ws4 ++ time ++ ws5 ++ tz ++ ws6 ++ ln ++ lit ") ") d
    (("line_number"%string, ln) :: ("timezone"%string, tz) ::
     ("time"%string, time) :: ("date"%string, date) :: d).
Proof.
  intros H3 Hd H4 Ht H5 Hz H6 Hl. unfold after_author, closing.
  change (lit ") ") with ([")"%char] ++ [" "%char]).
  repeat (eapply M_Cat;
    [ first [ apply matches_char; split; reflexivity
            | apply matches_re_s; split; [assumption | reflexivity]
            | apply matches_p_date; split; [assumption | reflexivity]
            | apply matches_p_time; split; [assumption | reflexivity]
            | apply matches_p_timezone; split; [assumption | reflexivity]
            | apply matches_p_line; split; [assumption | reflexivity] ] | ]).
  apply matches_char. split; reflexivity.
Qed.

Lemma after_author_inv pos u d d' :
  matches after_author pos u d d' ->
  exists ws3 date ws4 time ws5 tz ws6 ln,
    u = ws3 ++ date ++ ws4 ++ time ++ ws5 ++ tz ++ ws6 ++ ln ++ lit ") " /\
    (is_whitespace ws3 = true /\ is_date date = true /\
     is_whitespace ws4 = true /\ is_time time = true /\
     is_whitespace ws5 = true /\ is_timezone tz = true /\
     is_whitespace ws6 = true /\ is_line_number ln = true) /\
    d' = ("line_number"%string, ln) :: ("timezone"%string, tz) ::
         ("time"%string, time) :: ("date"%string, date) :: d.
Proof.
  unfold after_author, closing. intros H. invert_matches.
  do 8 eexists. split; [reflexivity|]. split; [|reflexivity]. repeat split; assumption.
Qed.

(** The rest of the pattern matches the rest of a reading. *)
Lemma complete_after_author pos d ws3 date ws4 time ws5 tz ws6 ln code :
  is_whitespace ws3 = true -> is_date date = true ->
  is_whitespace ws4 = true -> is_time time = true ->
  is_whitespace ws5 = true -> is_timezone tz = true ->
  is_whitespace ws6 = true -> is_line_number ln = true ->
  exec after_author pos
    (ws3 ++ date ++ ws4 ++ time ++ ws5 ++ tz ++ ws6 ++ ln ++ lit ") " ++ code)
    d accept <> None.
Proof.
  intros H3 Hd H4 Ht H5 Hz H6 Hl.
  replace (ws3 ++ date ++ ws4 ++ time ++ ws5 ++ tz ++ ws6 ++ ln ++ lit ") " ++ code)
    with ((ws3 ++ date ++ ws4 ++ time ++ ws5 ++ tz ++ ws6 ++ ln ++ lit ") ") ++ code)
    by (rewrite <- !app_assoc; reflexivity).
  eapply exec_complete.
  - apply matches_after_author; assumption.
  - discriminate.
Qed.

Lemma complete_from_paren pos d ws2 author ws3 date ws4 time ws5 tz ws6 ln code :
  is_whitespace ws2 = true -> is_author author = true ->
  is_whitespace ws3 = true -> is_date date = true ->
  is_whitespace ws4 = true -> is_time time = true ->
  is_whitespace ws5 = true -> is_timezone tz = true ->
  is_whitespace ws6 = true -> is_line_number ln = true ->
  exec (Cat re_s from_paren) pos
    (ws2 ++ lit "(" ++ author ++ ws3 ++ date ++ ws4 ++ time ++ ws5 ++ tz ++ ws6 ++
     ln ++ lit ") " ++ code)
    d accept <> None.
Proof.
  intros H2 Ha H3 Hd H4 Ht H5 Hz H6 Hl.
  replace (ws2 ++ lit "(" ++ author ++ ws3 ++ date ++ ws4 ++ time ++ ws5 ++ tz ++
           ws6 ++ ln ++ lit ") " ++ code)
    with ((ws2 ++ ["("%char] ++ author ++
           (ws3 ++ date ++ ws4 ++ time ++ ws5 ++ tz ++ ws6 ++ ln ++ lit ") ")) ++ code)
    by (change (lit "(") with ["("%char]; rewrite <- !app_assoc; reflexivity).
  eapply exec_complete; [|discriminate].
  unfold from_paren.
  eapply M_Cat; [apply matches_re_s; split; [assumption | reflexivity]|].
  eapply M_Cat; [apply matches_char; split; reflexivity|].
  eapply M_Cat; [apply matches_p_author; split; [assumption | reflexivity]|].
  apply matches_after_author; assumption.
Qed.

Lemma complete_from_file pos d file ws2 author ws3 date ws4 time ws5 tz ws6 ln code :
  is_filename file = true ->
  is_whitespace ws2 = true -> is_author author = true ->
  is_whitespace ws3 = true -> is_date date = true ->
  is_whitespace ws4 = true -> is_time time = true ->
  is_whitespace ws5 = true -> is_timezone tz = true ->
  is_whitespace ws6 = true -> is_line_number ln = true ->
  exec from_file pos
    (file ++ ws2 ++ lit "(" ++ author ++ ws3 ++ date ++ ws4 ++ time ++ ws5 ++ tz ++
     ws6 ++ ln ++ lit ") " ++ code)
    d accept <> None.
Proof.
  intros Hf H2 Ha H3 Hd H4 Ht H5 Hz H6 Hl.
  replace (file ++ ws2 ++ lit "(" ++ author ++ ws3 ++ date ++ ws4 ++ time ++ ws5 ++
           tz ++ ws6 ++ ln ++ lit ") " ++ code)
    with (((file ++ ws2) ++ ["("%char] ++ author ++
           (ws3 ++ date ++ ws4 ++ time ++ ws5 ++ tz ++ ws6 ++ ln ++ lit ") ")) ++ code)
    by (change (lit "(") with ["("%char]; rewrite <- !app_assoc; reflexivity).
  eapply exec_complete; [|discriminate].
  unfold from_file, from_paren.
  eapply M_Cat; [apply matches_p_file; do 2 eexists; repeat split; assumption|].
  eapply M_Cat; [apply matches_char; split; reflexivity|].
  eapply M_Cat; [apply matches_p_author; split; [assumption | reflexivity]|].
  apply matches_after_author; assumption.
Qed.

(** ** Peeling the pattern, one item at a time *)

Lemma peel_cat r1 r2 pos s d k res :
  exec (Cat r1 r2) pos s d k = Some res ->
  exists u s' d', s = u ++ s' /\ matches r1 pos u d d' /\
    exec r2 (pos + length u) s' d' k = Some res.
Proof. simpl. apply exec_sound. Qed.

Lemma firstn_consumed pos (u s : str) : firstn (pos + length u - pos) (u ++ s) = u.
Proof.
  replace (pos + length u - pos) with (length u) by lia.
  rewrite firstn_app, Nat.sub_diag, firstn_all. simpl. apply app_nil_r.
Qed.

Lemma peel_whitespace r2 pos s d res :
  exec (Cat re_s r2) pos s d accept = Some res ->
  exists ws s', s = ws ++ s' /\ is_whitespace ws = true /\
    exec r2 (pos + length ws) s' d accept = Some res /\
    forall ws' s'', s = ws' ++ s'' -> forallb is_space ws' = true ->
      length ws < length ws' -> exec r2 (pos + length ws') s'' d accept = None.
Proof.
  intros H.
  change (rep_greedy is_space 1 None pos s d
            (fun pos' s' d' => exec r2 pos' s' d' accept) = Some res) in H.
  apply rep_greedy_first in H.
  destruct H as (ws & s' & -> & Hws & Hlo & _ & H & Hfirst).
  exists ws, s'. split; [reflexivity|]. split; [apply run_of_spec; auto|].
  split; [exact H|]. intros ws' s'' E Hws' Hlen.
  apply (Hfirst ws' s'' E Hws' I Hlen).
Qed.

Lemma peel_file pos s d res :
  exec from_file pos s d accept = Some res ->
  exists file s', s = file ++ s' /\ is_filename file = true /\
    exec (Cat re_s from_paren) (pos + length file) s'
         (("file"%string, file) :: d) accept = Some res /\
    forall file' s'', s = file' ++ s'' -> forallb is_file_char file' = true ->
      length file < length file' ->
      exec (Cat re_s from_paren) (pos + length file') s''
           (("file"%string, file') :: d) accept = None.
Proof.
  intros H.
  change (rep_greedy is_file_char 1 None pos s d
            (fun pos' s' d' =>
               exec (Cat re_s from_paren) pos' s'
                 (("file"%string, firstn (pos' - pos) s) :: d') accept) = Some res) in H.
  apply rep_greedy_first in H.
  destruct H as (file & s' & -> & Hf & Hlo & _ & H & Hfirst).
  rewrite firstn_consumed in H.
  exists file, s'. split; [reflexivity|]. split; [apply run_of_spec; auto|].
  split; [exact H|]. intros file' s'' E Hf' Hlen.
  pose proof (Hfirst file' s'' E Hf' I Hlen) as Hn. cbv beta in Hn.
  rewrite E, firstn_consumed in Hn. exact Hn.
Qed.

Lemma peel_author pos s d res :
  exec (Cat p_author after_author) pos s d accept = Some res ->
  exists author s', s = author ++ s' /\ is_author author = true /\
    exec after_author (pos + length author) s'
         (("author"%string, author) :: d) accept = Some res /\
    forall author' s'', s = author' ++ s'' -> 1 <= length author' ->
      length author' < length author ->
      exec after_author (pos + length author') s''
           (("author"%string, author') :: d) accept = None.
Proof.
  intros H.
  change (rep_lazy is_dot 1 None pos s d
            (fun pos' s' d' =>
               exec after_author pos' s'
                 (("author"%string, firstn (pos' - pos) s) :: d') accept) = Some res) in H.
  apply rep_lazy_first in H.
  destruct H as (author & s' & -> & Ha & Hlo & _ & H & Hfirst).
  rewrite firstn_consumed in H.
  exists author, s'. split; [reflexivity|]. split; [apply run_of_spec; auto|].
  split; [exact H|]. intros author' s'' E Hlo' Hlen.
  pose proof (Hfirst author' s'' E Hlo' Hlen) as Hn. cbv beta in Hn.
  rewrite E, firstn_consumed in Hn. exact Hn.
Qed.

Lemma app_eq_length (u u' x x' : str) :
  u ++ x = u' ++ x' -> length u = length u' -> u = u' /\ x = x'.
Proof.
  revert u'. induction u as [|a u IH]; intros [|a' u'] E L;
    simpl in *; try discriminate; auto.
  injection E as -> E. injection L as L. destruct (IH u' E L) as [-> ->]. auto.
Qed.

Lemma well_formed_fields f :
  well_formed f = true ->
  is_sha (f_sha f) = true /\ is_filename (f_file f) = true /\
  is_author (f_author f) = true /\ is_date (f_date f) = true /\
  is_time (f_time f) = true /\ is_timezone (f_timezone f) = true /\
  is_line_number (f_line_number f) = true.
Proof. unfold well_formed. rewrite !andb_true_iff. tauto. Qed.

Lemma whitespace_all ws1 ws2 ws3 ws4 ws5 ws6 :
  forallb is_whitespace [ws1; ws2; ws3; ws4; ws5; ws6] = true ->
  is_whitespace ws1 = true /\ is_whitespace ws2 = true /\
  is_whitespace ws3 = true /\ is_whitespace ws4 = true /\
  is_whitespace ws5 = true /\ is_whitespace ws6 = true.
Proof. simpl. rewrite !andb_true_iff. tauto. Qed.

(** ** The reading the matcher picks *)

Lemma lparen_unique (ws ws' x x' : str) :
  ws ++ "("%char :: x = ws' ++ "("%char :: x' ->
  is_whitespace ws = true -> is_whitespace ws' = true ->
  ws = ws' /\ x = x'.
Proof.
  intros E H H'.
  assert (Hw : ws = ws').
  { eapply span_unique with (q := is_space); try exact E;
      auto using run_of_forallb. }
  subst ws'. apply app_inv_head in E. injection E as E. auto.
Qed.

Lemma is_author_length a : is_author a = true -> 1 <= length a.
Proof. intros H. apply run_of_spec in H. tauto. Qed.

Lemma re_match_prefers line d :
  re_match prepare_pattern line = Some d ->
  exists f ws1 ws2 ws3 ws4 ws5 ws6 code,
    d = groupdict_of f /\ layout line f ws1 ws2 ws3 ws4 ws5 ws6 code /\
    forall f' ws1' ws2' ws3' ws4' ws5' ws6' code',
      layout line f' ws1' ws2' ws3' ws4' ws5' ws6' code' ->
      prefers ws1 (f_file f) (f_author f) ws1' (f_file f') (f_author f').
Proof.
  intros H.
  change (exec (Cat Bol (Cat p_sha (Cat re_s from_file))) 0 line [] accept = Some d) in H.
  apply peel_cat in H. destruct H as (u0 & s0 & d0 & -> & Hb & H).
  apply matches_Bol in Hb. destruct Hb as (_ & -> & ->).
  apply peel_cat in H. destruct H as (sha & s1 & d1 & -> & Hsha & H).
  apply matches_p_sha in Hsha. destruct Hsha as (Hsha & ->).
  apply peel_whitespace in H. destruct H as (ws1 & s2 & -> & Hws1 & H & Hfirst1).
  apply peel_file in H. destruct H as (file & s3 & -> & Hfile & H & Hfirst2).
  apply peel_cat in H. destruct H as (ws2 & s4 & d4 & -> & Hws2 & H).
  apply matches_re_s in Hws2. destruct Hws2 as (Hws2 & ->).
  unfold from_paren in H.
  apply peel_cat in H. destruct H as (lp & s5 & d5 & -> & Hlp & H).
  apply matches_char in Hlp. destruct Hlp as (-> & ->).
  apply peel_author in H. destruct H as (author & s6 & -> & Hauthor & H & Hfirst3).
  apply exec_sound in H. destruct H as (u7 & code & d7 & -> & Hm & Hacc).
  injection Hacc as <-. apply after_author_inv in Hm.
  destruct Hm as (ws3 & date & ws4 & time & ws5 & tz & ws6 & ln & -> &
                  (H3 & Hdate & H4 & Htime & H5 & Htz & H6 & Hln) & ->).
  rewrite app_nil_l.
  set (f := Fields sha file author date time tz ln).
  assert (Hlay : layout
    (sha ++ ws1 ++ file ++ ws2 ++ ["("%char] ++ author ++
     (ws3 ++ date ++ ws4 ++ time ++ ws5 ++ tz ++ ws6 ++ ln ++ lit ") ") ++ code)
    f ws1 ws2 ws3 ws4 ws5 ws6 code).
  { unfold layout, well_formed, f.
    cbn [f_sha f_file f_author f_date f_time f_timezone f_line_number forallb].
    rewrite Hsha, Hfile, Hauthor, Hdate, Htime, Htz, Hln, Hws1, Hws2, H3, H4, H5, H6.
    split; [|split; reflexivity]. rewrite <- !app_assoc. reflexivity. }
  exists f, ws1, ws2, ws3, ws4, ws5, ws6, code.
  split; [reflexivity|]. split; [exact Hlay|].
  intros f' ws1' ws2' ws3' ws4' ws5' ws6' code' Hlay'.
  assert (Hsha' : f_sha f' = sha).
  { change sha with (f_sha f) at 1.
    eapply sha_unique with (code := code') (code' := code).
    - exists ws1', ws2', ws3', ws4', ws5', ws6'. exact Hlay'.
    - exists ws1, ws2, ws3, ws4, ws5, ws6. exact Hlay. }
  destruct Hlay' as (E & Hf' & Hws').
  destruct (well_formed_fields f' Hf') as (_ & Hfile' & Hauthor' & Hdate' & Htime' & Htz' & Hln').
  destruct (whitespace_all _ _ _ _ _ _ Hws')
    as (Hws1' & Hws2' & H3' & H4' & H5' & H6').
  clear Hlay Hf' Hws'. rewrite Hsha' in E. apply app_inv_head in E.
  unfold prefers. cbn [f_file f_author f].
  destruct (Nat.lt_trichotomy (length ws1') (length ws1)) as [Hlt|[Heq|Hgt]];
    [left; exact Hlt | | exfalso].
  2:{ pose proof (Hfirst1 ws1' _ E (run_of_forallb _ _ Hws1') Hgt) as Hn.
      revert Hn. apply complete_from_file; assumption. }
  right. split; [exact Heq|].
  apply app_eq_length in E; [|symmetry; exact Heq]. destruct E as [<- E].
  destruct (Nat.lt_trichotomy (length (f_file f')) (length file)) as [Hlt|[Heq2|Hgt]];
    [left; exact Hlt | | exfalso].
  2:{ pose proof (Hfirst2 (f_file f') _ E (run_of_forallb _ _ Hfile') Hgt) as Hn.
      revert Hn. apply complete_from_paren; assumption. }
  right. split; [exact Heq2|].
  apply app_eq_length in E; [|symmetry; exact Heq2]. destruct E as [E0 E].
  apply lparen_unique in E; [|assumption|assumption]. destruct E as [<- E].
  destruct (le_lt_dec (length author) (length (f_author f'))) as [Hle|Hlt];
    [exact Hle | exfalso].
  pose proof (Hfirst3 (f_author f') _ E (is_author_length _ Hauthor') Hlt) as Hn.
  revert Hn. apply complete_after_author; assumption.
Qed.

(** ** A reading is fixed by where its first three runs end *)

Lemma digit_not_space a : is_digit a = true -> is_space a = false.
Proof.
  destruct a as [[] [] [] [] [] [] [] []]; intros H; try reflexivity; discriminate H.
Qed.

Lemma sign_not_space a : is_sign a = true -> is_space a = false.
Proof.
  destruct a as [[] [] [] [] [] [] [] []]; intros H; try reflexivity; discriminate H.
Qed.

Lemma space_not_digit a : is_space a = true -> is_digit a = false.
Proof.
  destruct a as [[] [] [] [] [] [] [] []]; intros H; try reflexivity; discriminate H.
Qed.

(** Two runs of the set [q], each followed by a character outside [q]. *)
Lemma run_unique (q : ascii -> bool) (u u' y y' : str) :
  u ++ y = u' ++ y' ->
  forallb q u = true -> forallb q u' = true ->
  (exists a r, y = a :: r /\ q a = false) ->
  (exists a r, y' = a :: r /\ q a = false) ->
  u = u' /\ y = y'.
Proof.
  intros E Hu Hu' (a & r & -> & Ha) (a' & r' & -> & Ha').
  assert (u = u') by (eapply span_unique; eassumption). subst u'.
  apply app_inv_head in E. auto.
Qed.

Lemma is_date_head s x :
  is_date s = true -> length s = 10 /\ exists a r, s ++ x = a :: r /\ is_space a = false.
Proof.
  intros H. apply is_date_spec in H.
  destruct H as (u1 & u2 & u3 & -> & (L1 & H1) & (L2 & _) & (L3 & _)).
  split; [rewrite !length_app; simpl; lia|].
  destruct u1 as [|a u1]; [discriminate|]. simpl in H1.
  apply andb_true_iff in H1. destruct H1 as [Ha _].
  exists a. eexists. split; [reflexivity | apply digit_not_space, Ha].
Qed.

Lemma is_time_head s x :
  is_time s = true -> length s = 8 /\ exists a r, s ++ x = a :: r /\ is_space a = false.
Proof.
  intros H. apply is_time_spec in H.
  destruct H as (u1 & u2 & u3 & -> & (L1 & H1) & (L2 & _) & (L3 & _)).
  split; [rewrite !length_app; simpl; lia|].
  destruct u1 as [|a u1]; [discriminate|]. simpl in H1.
  apply andb_true_iff in H1. destruct H1 as [Ha _].
  exists a. eexists. split; [reflexivity | apply digit_not_space, Ha].
Qed.

Lemma digits_head s x :
  run_of is_digit s = true -> exists a r, s ++ x = a :: r /\ is_space a = false.
Proof.
  destruct s as [|a s]; [discriminate|]. simpl. intros H.
  apply andb_true_iff in H. destruct H as [Ha _].
  exists a. eexists. split; [reflexivity | apply digit_not_space, Ha].
Qed.

Lemma whitespace_head_not_digit ws x :
  is_whitespace ws = true -> exists a r, ws ++ x = a :: r /\ is_digit a = false.
Proof.
  intros H. apply whitespace_head in H. destruct H as (a & r & -> & Ha).
  exists a. eexists. split; [reflexivity | apply space_not_digit, Ha].
Qed.

(** A timezone followed by whitespace. *)
Lemma timezone_unique (tz tz' ws ws' x x' : str) :
  tz ++ ws ++ x = tz' ++ ws' ++ x' ->
  is_timezone tz = true -> is_timezone tz' = true ->
  is_whitespace ws = true -> is_whitespace ws' = true ->
  tz = tz' /\ ws ++ x = ws' ++ x'.
Proof.
  intros E Hz Hz' Hw Hw'.
  destruct tz as [|a ds]; [discriminate|]. destruct tz' as [|a' ds']; [discriminate|].
  simpl in Hz, Hz'. apply andb_true_iff in Hz, Hz'.
  destruct Hz as [_ Hds], Hz' as [_ Hds'].
  simpl in E. injection E as <- E.
  apply run_unique with (q := is_digit) in E;
    auto using run_of_forallb, whitespace_head_not_digit.
  destruct E as [<- E]. auto.
Qed.

Lemma reading_determined line f ws1 ws2 ws3 ws4 ws5 ws6 code
                              f' ws1' ws2' ws3' ws4' ws5' ws6' code' :
  layout line f ws1 ws2 ws3 ws4 ws5 ws6 code ->
  layout line f' ws1' ws2' ws3' ws4' ws5' ws6' code' ->
  length ws1' = length ws1 ->
  length (f_file f') = length (f_file f) ->
  length (f_author f') = length (f_author f) ->
  f' = f.
Proof.
  intros Hl Hl' L1 L2 L3.
  assert (Hsha : f_sha f' = f_sha f).
  { eapply sha_unique with (code := code') (code' := code).
    - exists ws1', ws2', ws3', ws4', ws5', ws6'. exact Hl'.
    - exists ws1, ws2, ws3, ws4, ws5, ws6. exact Hl. }
  destruct Hl as (E & Hf & Hws), Hl' as (E' & Hf' & Hws').
  destruct (well_formed_fields f Hf) as (_ & _ & _ & Hd & Ht & Hz & Hn).
  destruct (well_formed_fields f' Hf') as (_ & _ & _ & Hd' & Ht' & Hz' & Hn').
  destruct (whitespace_all _ _ _ _ _ _ Hws) as (H1 & H2 & H3 & H4 & H5 & H6).
  destruct (whitespace_all _ _ _ _ _ _ Hws') as (H1' & H2' & H3' & H4' & H5' & H6').
  clear Hf Hf' Hws Hws'.
  destruct f as [sha file author date time tz ln].
  destruct f' as [sha' file' author' date' time' tz' ln'].
  cbn [f_sha f_file f_author f_date f_time f_timezone f_line_number] in *.
  subst sha' line. apply app_inv_head in E'.
  apply app_eq_length in E'; [|symmetry; exact L1]. destruct E' as [-> E].
  apply app_eq_length in E; [|symmetry; exact L2]. destruct E as [-> E].
  apply lparen_unique in E; [|assumption|assumption]. destruct E as [-> E].
  apply app_eq_length in E; [|symmetry; exact L3]. destruct E as [-> E].
  apply run_unique with (q := is_space) in E;
    [|auto using run_of_forallb| auto using run_of_forallb
     |apply (is_date_head _ _ Hd)|apply (is_date_head _ _ Hd')].
  destruct E as [-> E].
  apply app_eq_length in E;
    [|rewrite (proj1 (is_date_head _ [] Hd)), (proj1 (is_date_head _ [] Hd')); reflexivity].
  destruct E as [-> E].
  apply run_unique with (q := is_space) in E;
    [|auto using run_of_forallb| auto using run_of_forallb
     |apply (is_time_head _ _ Ht)|apply (is_time_head _ _ Ht')].
  destruct E as [-> E].
  apply app_eq_length in E;
    [|rewrite (proj1 (is_time_head _ [] Ht)), (proj1 (is_time_head _ [] Ht')); reflexivity].
  destruct E as [-> E].
  apply run_unique with (q := is_space) in E;
    [|auto using run_of_forallb| auto using run_of_forallb| |].
  2:{ destruct tz as [|a r]; [discriminate|]. simpl in Hz.
      apply andb_true_iff in Hz. destruct Hz as [Ha _].
      exists a. eexists. split; [reflexivity | apply sign_not_space, Ha]. }
  2:{ destruct tz' as [|a r]; [discriminate|]. simpl in Hz'.
      apply andb_true_iff in Hz'. destruct Hz' as [Ha _].
      exists a. eexists. split; [reflexivity | apply sign_not_space, Ha]. }
  destruct E as [-> E].
  apply timezone_unique in E; try assumption. destruct E as [-> E].
  apply run_unique with (q := is_space) in E;
    [|auto using run_of_forallb| auto using run_of_forallb
     |apply (digits_head _ _ Hn)|apply (digits_head _ _ Hn')].
  destruct E as [-> E].
  apply run_unique with (q := is_digit) in E;
    [|auto using run_of_forallb| auto using run_of_forallb
     |do 2 eexists; split; reflexivity|do 2 eexists; split; reflexivity].
  destruct E as [-> _]. reflexivity.
Qed.

(** C1, as the code has it.  A line that matches the grammar is parsed
    into a record, and the sha, author, date, time, timezone and line
    number of the record are the fields of one reading of the line: the
    reading the matcher reaches first.  Every reading of the line has the
    same sha; the reading of the record has, among all readings, the
    longest whitespace after the sha, then the longest file name, then the
    shortest author, and no other reading ends these three runs where it
    does.  The sha starts with the caret when the line does. *)
Theorem parse_blame_extracts_first_reading (compiled : bool) (line : str) :
  matches_grammar line ->
  exists d f ws1 ws2 ws3 ws4 ws5 ws6 code,
    snd (parse_blame (self_pattern compiled) line) = Ret d /\
    layout line f ws1 ws2 ws3 ws4 ws5 ws6 code /\
    dict_get d "sha" = Some (f_sha f) /\
    dict_get d "author" = Some (f_author f) /\
    dict_get d "date" = Some (f_date f) /\
    dict_get d "time" = Some (f_time f) /\
    dict_get d "timezone" = Some (f_timezone f) /\
    dict_get d "line_number" = Some (f_line_number f) /\
    (forall f' ws1' ws2' ws3' ws4' ws5' ws6' code',
       layout line f' ws1' ws2' ws3' ws4' ws5' ws6' code' ->
       f_sha f' = f_sha f /\
       prefers ws1 (f_file f) (f_author f) ws1' (f_file f') (f_author f') /\
       (length ws1' = length ws1 ->
        length (f_file f') = length (f_file f) ->
        length (f_author f') = length (f_author f) -> f' = f)) /\
    (forall rest, line = "^"%char :: rest -> exists w, f_sha f = "^"%char :: w).
Proof.
  intros Hg. rewrite parse_blame_eq. cbn [snd].
  destruct (re_match prepare_pattern line) as [d|] eqn:Hm;
    [|exfalso; revert Hm; apply re_match_complete; exact Hg].
  apply re_match_prefers in Hm.
  destruct Hm as (f & ws1 & ws2 & ws3 & ws4 & ws5 & ws6 & code & -> & Hlay & Hpref).
  exists (groupdict_of f), f, ws1, ws2, ws3, ws4, ws5, ws6, code.
  repeat match goal with |- _ /\ _ => split end; try reflexivity; try exact Hlay.
  - intros f' ws1' ws2' ws3' ws4' ws5' ws6' code' Hlay'. split; [|split].
    + eapply sha_unique with (code := code') (code' := code).
      * exists ws1', ws2', ws3', ws4', ws5', ws6'. exact Hlay'.
      * exists ws1, ws2, ws3, ws4, ws5, ws6. exact Hlay.
    + eapply Hpref. exact Hlay'.
    + intros L1 L2 L3. eapply reading_determined; eassumption.
  - intros rest E. eapply sha_keeps_caret with (code := code); [|exact E].
    exists ws1, ws2, ws3, ws4, ws5, ws6. exact Hlay.
Qed.

Lemma parse_blame_extracts_first_reading_witness :
  matches_grammar scenario_a /\
  exists d f ws1 ws2 ws3 ws4 ws5 ws6 code,
    snd (parse_blame (self_pattern false) scenario_a) = Ret d /\
    layout scenario_a f ws1 ws2 ws3 ws4 ws5 ws6 code /\
    dict_get d "sha" = Some (f_sha f) /\
    dict_get d "author" = Some (f_author f) /\
    dict_get d "date" = Some (f_date f) /\
    dict_get d "time" = Some (f_time f) /\
    dict_get d "timezone" = Some (f_timezone f) /\
    dict_get d "line_number" = Some (f_line_number f) /\
    (forall f' ws1' ws2' ws3' ws4' ws5' ws6' code',
       layout scenario_a f' ws1' ws2' ws3' ws4' ws5' ws6' code' ->
       f_sha f' = f_sha f /\
       prefers ws1 (f_file f) (f_author f) ws1' (f_file f') (f_author f') /\
       (length ws1' = length ws1 ->
        length (f_file f') = length (f_file f) ->
        length (f_author f') = length (f_author f) -> f' = f)) /\
    (forall rest, scenario_a = "^"%char :: rest -> exists w, f_sha f = "^"%char :: w).
Proof.
  split.
  - do 2 eexists. exact scenario_a_grammar.
  - apply (parse_blame_extracts_first_reading false scenario_a).
    do 2 eexists. exact scenario_a_grammar.
Defined.

(** C1, as stated, fails on a line with several readings.  The line of an
    author with a parenthesis in the name reads, by the grammar, with the
    author "Jane Doe (Contractor)", and the record has the author
    "Contractor)"; the line of an author padded with blanks reads with
    the padding in the author, and the record has the author "Al". *)
Lemma parse_blame_not_every_reading :
  blame_grammar jane_line jane_fields (lit "code") /\
  (exists d, snd (parse_blame None jane_line) = Ret d /\
     dict_get d "author" = Some (lit "Contractor)") /\
     dict_get d "file" = Some (lit "file.py (Jane Doe")) /\
  blame_grammar padded_line padded_fields (lit "code") /\
  (exists d, snd (parse_blame None padded_line) = Ret d /\
     dict_get d "author" = Some (lit "Al")).
Proof.
  split; [|split; [|split]].
  - exists (lit " "), (lit " "), (lit " "), (lit " "), (lit " "), (lit " ").
    repeat split.
  - eexists. split; [vm_compute; reflexivity | split; reflexivity].
  - exists (lit " "), (lit " "), (lit " "), (lit " "), (lit " "), (lit " ").
    repeat split.
  - eexists. split; [vm_compute; reflexivity | reflexivity].
Qed.

(** * Further properties of the parser *)

(** X1.  A record that [parse_blame] returns is the reading of the line
    that the backtracking order reaches first: among all readings of the
    line it has the longest whitespace after the sha, then the longest
    file name, then the shortest author. *)
Theorem parse_blame_prefers (compiled : bool) (line : str) (d : dict) :
  snd (parse_blame (self_pattern compiled) line) = Ret d ->
  exists f ws1 ws2 ws3 ws4 ws5 ws6 code,
    d = groupdict_of f /\ layout line f ws1 ws2 ws3 ws4 ws5 ws6 code /\
    forall f' ws1' ws2' ws3' ws4' ws5' ws6' code',
      layout line f' ws1' ws2' ws3' ws4' ws5' ws6' code' ->
      prefers ws1 (f_file f) (f_author f) ws1' (f_file f') (f_author f').
Proof.
  rewrite parse_blame_eq. cbn [snd].
  destruct (re_match prepare_pattern line) as [d'|] eqn:Hm; [|discriminate].
  intros [= <-]. apply re_match_prefers. exact Hm.
Qed.

Lemma parse_blame_prefers_witness :
  snd (parse_blame (self_pattern false) scenario_a) =
    Ret (groupdict_of
           scenario_a_fields) /\
  exists f ws1 ws2 ws3 ws4 ws5 ws6 code,
    groupdict_of
      scenario_a_fields
      = groupdict_of f /\
    layout scenario_a f ws1 ws2 ws3 ws4 ws5 ws6 code /\
    forall f' ws1' ws2' ws3' ws4' ws5' ws6' code',
      layout scenario_a f' ws1' ws2' ws3' ws4' ws5' ws6' code' ->
      prefers ws1 (f_file f) (f_author f) ws1' (f_file f') (f_author f').
Proof.
  split; [vm_compute; reflexivity|].
  apply (parse_blame_prefers false scenario_a). vm_compute. reflexivity.
Defined.

Lemma forallb_app_l (p : ascii -> bool) (u v : str) :
  forallb p (u ++ v) = true -> forallb p u = true.
Proof. rewrite forallb_app, andb_true_iff. tauto. Qed.

Lemma run_of_app_l (p : ascii -> bool) (u v : str) :
  u <> [] -> run_of p (u ++ v) = true -> run_of p u = true.
Proof.
  intros Hu H. apply run_of_spec in H. apply run_of_spec. split.
  - eapply forallb_app_l. apply H.
  - destruct u; [congruence | simpl; lia].
Qed.

Lemma whitespace_cons c ws :
  is_space c = true -> is_whitespace ws = true -> is_whitespace (c :: ws) = true.
Proof.
  intros Hc Hws. apply run_of_forallb in Hws. unfold is_whitespace. simpl.
  rewrite Hc. exact Hws.
Qed.

(** X2.  The author of a record carries no padding: when it has more than
    one character, its last character is not whitespace. *)
Theorem author_not_padded (compiled : bool) (line : str) (d : dict) (a : str) (c : ascii) :
  snd (parse_blame (self_pattern compiled) line) = Ret d ->
  a <> [] ->
  dict_get d "author" = Some (a ++ [c]) ->
  is_space c = false.
Proof.
  rewrite parse_blame_eq. cbn [snd].
  destruct (re_match prepare_pattern line) as [d'|] eqn:Hm; [|discriminate].
  intros [= <-] Ha Hd. apply re_match_prefers in Hm.
  destruct Hm as (f & ws1 & ws2 & ws3 & ws4 & ws5 & ws6 & code & -> & Hlay & Hpref).
  injection Hd as Hd.
  destruct (is_space c) eqn:Hc; [exfalso|reflexivity].
  destruct Hlay as (E & Hf & Hws).
  destruct (well_formed_fields f Hf) as (Hsha & Hfile & Hauthor & Hdate & Htime & Htz & Hln).
  destruct (whitespace_all _ _ _ _ _ _ Hws) as (H1 & H2 & H3 & H4 & H5 & H6).
  specialize (Hpref (Fields (f_sha f) (f_file f) a (f_date f) (f_time f)
                            (f_timezone f) (f_line_number f))
                    ws1 ws2 (c :: ws3) ws4 ws5 ws6 code).
  cbn [f_file f_author] in Hpref.
  assert (Hlen : length (f_author f) = S (length a))
    by (rewrite Hd, length_app; simpl; lia).
  destruct Hpref as [Hp|(_ & [Hp|(_ & Hp)])]; try lia.
  unfold layout, well_formed.
  cbn [f_sha f_file f_author f_date f_time f_timezone f_line_number forallb].
  rewrite Hd in Hauthor. rewrite Hsha, Hfile, Hdate, Htime, Htz, Hln.
  assert (Ha' : is_author a = true) by exact (run_of_app_l is_dot a [c] Ha Hauthor).
  rewrite Ha', H1, H2, H4, H5, H6, (whitespace_cons c ws3 Hc H3).
  split; [|split; reflexivity].
  rewrite E, Hd, <- app_assoc. reflexivity.
Qed.

Lemma author_not_padded_witness :
  snd (parse_blame (self_pattern false) scenario_a) =
    Ret (groupdict_of
           scenario_a_fields) /\
  lit "Alice Smit" <> [] /\
  dict_get (groupdict_of
           scenario_a_fields)
    "author" = Some (lit "Alice Smit" ++ ["h"%char]) /\
  is_space "h" = false.
Proof.
  split; [vm_compute; reflexivity|]. split; [discriminate|]. split; [reflexivity|].
  apply (author_not_padded false scenario_a (groupdict_of scenario_a_fields)
           (lit "Alice Smit") "h"%char).
  - vm_compute. reflexivity.
  - discriminate.
  - reflexivity.
Defined.

(** X3.  [parse_blame] returns a record only for a line that matches the
    grammar, and the record then holds the seven named groups, each of the
    shape the grammar gives it: in particular the line number is a
    non-empty run of digits, the date has the form YYYY-MM-DD and the time
    the form HH:MM:SS. *)
Theorem parse_blame_record_shape (compiled : bool) (line : str) (d : dict) :
  snd (parse_blame (self_pattern compiled) line) = Ret d ->
  matches_grammar line /\
  exists f, d = groupdict_of f /\ well_formed f = true /\
    map fst d = ["line_number"; "timezone"; "time"; "date"; "author"; "file"; "sha"]%string /\
    length (f_date f) = 10 /\ length (f_time f) = 8 /\
    py_int (f_line_number f) = Ret (decimal (f_line_number f)).
Proof.
  intros H. apply parse_blame_returns in H. destruct H as (f & code & -> & Hg).
  split; [exists f, code; exact Hg|].
  exists f. split; [reflexivity|].
  destruct Hg as (ws1 & ws2 & ws3 & ws4 & ws5 & ws6 & _ & Hf & _).
  split; [exact Hf|]. split; [reflexivity|].
  destruct (well_formed_fields f Hf) as (_ & _ & _ & Hdate & Htime & _ & Hln).
  repeat split.
  - destruct (f_date f) as [|? [|? [|? [|? [|? [|? [|? [|? [|? [|? [|? ?]]]]]]]]]]];
      try discriminate Hdate; reflexivity.
  - destruct (f_time f) as [|? [|? [|? [|? [|? [|? [|? [|? [|? ?]]]]]]]]];
      try discriminate Htime; reflexivity.
  - apply py_int_digits. exact Hln.
Qed.

Lemma parse_blame_record_shape_witness :
  snd (parse_blame (self_pattern false) scenario_b) =
    Ret (groupdict_of
           scenario_b_fields) /\
  matches_grammar scenario_b /\
  exists f,
    groupdict_of
      scenario_b_fields
      = groupdict_of f /\ well_formed f = true /\
    map fst (groupdict_of
      scenario_b_fields)
      = ["line_number"; "timezone"; "time"; "date"; "author"; "file"; "sha"]%string /\
    length (f_date f) = 10 /\ length (f_time f) = 8 /\
    py_int (f_line_number f) = Ret (decimal (f_line_number f)).
Proof.
  split; [vm_compute; reflexivity|].
  apply (parse_blame_record_shape false scenario_b). vm_compute. reflexivity.
Defined.

(** * Further properties of the command *)

Lemma get_blame_eq env path ed :
  get_blame env path ed =
  (record_call (blame_command env path) (blame_cwd env path) ed,
   blame_outcome env path).
Proof.
  unfold get_blame, blame_command, blame_cwd, blame_outcome.
  rewrite <- app_assoc. reflexivity.
Qed.

Lemma matches_grammar_dec line :
  {matches_grammar line} + {~ matches_grammar line}.
Proof.
  destruct (re_match prepare_pattern line) as [d|] eqn:H.
  - left. apply re_match_sound in H. destruct H as (f & code & _ & Hg). exists f, code. exact Hg.
  - right. intros Hg. apply re_match_complete in Hg. congruence.
Qed.

Lemma lines_cases lines :
  Forall matches_grammar lines \/ Exists (fun l => ~ matches_grammar l) lines.
Proof.
  induction lines as [|l ls IH]; [left; constructor|].
  destruct (matches_grammar_dec l) as [Hl|Hl]; [|right; constructor; exact Hl].
  destruct IH as [IH|IH]; [left; constructor; assumption | right; apply Exists_cons_tl, IH].
Qed.

Lemma parse_lines_pattern compiled lines :
  fst (parse_lines (self_pattern compiled) lines) =
  match lines with
  | [] => self_pattern compiled
  | _ :: _ => self_pattern true
  end.
Proof.
  revert compiled. induction lines as [|l ls IH]; intros compiled; [reflexivity|].
  cbn [parse_lines]. rewrite parse_blame_eq.
  destruct (re_match prepare_pattern l); [|reflexivity].
  specialize (IH true).
  destruct (parse_lines (self_pattern true) ls) as [pat r]. cbn [fst] in *.
  rewrite IH. destruct ls; reflexivity.
Qed.

Lemma parse_lines_ok compiled lines :
  Forall matches_grammar lines ->
  exists fs, snd (parse_lines (self_pattern compiled) lines) = Ret (map groupdict_of fs) /\
    Forall2 (fun l f => exists code, blame_grammar l f code) lines fs.
Proof.
  revert compiled. induction lines as [|l ls IH]; intros compiled H.
  - exists []. split; [reflexivity | constructor].
  - inversion H as [|? ? Hl Hls]; subst. cbn [parse_lines]. rewrite parse_blame_eq.
    destruct (re_match prepare_pattern l) as [d|] eqn:Hm;
      [|exfalso; revert Hm; apply re_match_complete; exact Hl].
    apply re_match_sound in Hm. destruct Hm as (f & code & -> & Hg).
    destruct (IH true Hls) as (fs & Hfs & Hall).
    destruct (parse_lines (self_pattern true) ls) as [pat r]. cbn [snd] in *. subst r.
    exists (f :: fs). split; [reflexivity|]. constructor; eauto.
Qed.

Lemma parse_lines_raises compiled lines :
  Exists (fun l => ~ matches_grammar l) lines ->
  snd (parse_lines (self_pattern compiled) lines) = Raise AttributeError.
Proof.
  revert compiled. induction lines as [|l ls IH]; intros compiled H;
    [inversion H|].
  cbn [parse_lines]. rewrite parse_blame_eq.
  destruct (re_match prepare_pattern l) as [d|] eqn:Hm; [|reflexivity].
  inversion H as [? ? Hl|? ? Hls]; subst.
  - exfalso. apply Hl. apply re_match_sound in Hm.
    destruct Hm as (f & code & _ & Hg). exists f, code. exact Hg.
  - specialize (IH true Hls).
    destruct (parse_lines (self_pattern true) ls) as [pat r]. cbn [snd] in *.
    subst r. reflexivity.
Qed.

Lemma groupdicts_truthy fs : filter truthy (map groupdict_of fs) = map groupdict_of fs.
Proof.
  induction fs as [|f fs IH]; [reflexivity|]. cbn [map filter]. rewrite IH. reflexivity.
Qed.

Lemma readings_well_formed lines fs :
  Forall2 (fun l f => exists code, blame_grammar l f code) lines fs ->
  forallb well_formed fs = true.
Proof.
  induction 1 as [|l f ls fs (code & ws1 & ws2 & ws3 & ws4 & ws5 & ws6 & _ & Hf & _) _ IH];
    [reflexivity|]. cbn [forallb]. rewrite Hf, IH. reflexivity.
Qed.

Lemma make_phantoms_readings lines fs :
  fs <> [] ->
  Forall2 (fun l f => exists code, blame_grammar l f code) lines fs ->
  exists ps, make_phantoms (map groupdict_of fs) = Ret ps /\ Forall2 shows lines ps.
Proof.
  intros Hne Hall.
  pose proof (readings_well_formed lines fs Hall) as Hwf.
  destruct (py_max_spec (map (fun f => len (f_author f)) fs)) as (m & Hm & _ & _).
  { destruct fs; [congruence | discriminate]. }
  exists (map (fun f => Phantom (decimal (f_line_number f) - 1) (f_sha f)
                       (f_author f ++ str_mul nbsp (m - len (f_author f)))
                       (f_date f) (f_time f)) fs).
  split.
  - unfold make_phantoms, max_author_len. rewrite author_lens. cbn [bind].
    rewrite Hm. cbn [bind].
    apply make_phantoms_eq. exact Hwf.
  - clear - Hall. induction Hall as [|l f ls fs (code & Hg) _ IH]; cbn [map]; constructor;
      [|exact IH].
    exists f, code. cbn. repeat split; try assumption. eexists. reflexivity.
Qed.

Lemma run_blamed env self ed :
  suitable ed = true -> settings_get ed = false ->
  run env self ed =
  match blame_outcome env (file_name ed) with
  | Raise e => (self, communicate_error (ReportExn e) (blamed env ed), Ret tt)
  | Ret blame_output =>
      match parse_lines (pattern self) (splitlines blame_output) with
      | (pat, Raise e) => (Command pat, blamed env ed, Raise e)
      | (pat, Ret blames) =>
          match filter truthy blames with
          | [] => (Command pat,
                   communicate_error (ReportMsg parse_failure) (blamed env ed), Ret tt)
          | _ :: _ =>
              match make_phantoms (filter truthy blames) with
              | Raise e => (Command pat, blamed env ed, Raise e)
              | Ret ps =>
                  (Command pat,
                   scroll_left (settings_set true (phantom_set_update ps (blamed env ed))),
                   Ret tt)
              end
          end
      end
  end.
Proof.
  intros Hs Hd. rewrite (run_hidden env self ed Hs Hd), get_blame_eq.
  fold (blamed env ed). destruct (blame_outcome env (file_name ed)); reflexivity.
Qed.

Lemma run_on_matching env compiled ed output :
  suitable ed = true -> settings_get ed = false ->
  blame_outcome env (file_name ed) = Ret output ->
  splitlines output <> [] -> Forall matches_grammar (splitlines output) ->
  exists ps,
    run env (Command (self_pattern compiled)) ed =
      (Command (self_pattern true),
       scroll_left (settings_set true (phantom_set_update ps (blamed env ed))),
       Ret tt) /\
    Forall2 shows (splitlines output) ps.
Proof.
  intros Hs Hd Hout Hne Hall. rewrite (run_blamed env _ ed Hs Hd), Hout.
  cbn [pattern].
  pose proof (parse_lines_pattern compiled (splitlines output)) as Hpat.
  destruct (parse_lines_ok compiled (splitlines output) Hall) as (fs & Hfs & Hrd).
  destruct (parse_lines (self_pattern compiled) (splitlines output)) as [pat r].
  cbn [fst snd] in *. subst r pat. rewrite groupdicts_truthy.
  assert (Hfs : fs <> []).
  { intros ->. inversion Hrd as [E|]. apply Hne. symmetry. exact E. }
  destruct (make_phantoms_readings (splitlines output) fs Hfs Hrd) as (ps & Hps & Hshow).
  exists ps. rewrite Hps.
  destruct (splitlines output) as [|l ls]; [congruence|].
  destruct fs as [|f fs]; [congruence|]. split; [reflexivity | exact Hshow].
Qed.

Lemma run_on_mismatch env compiled ed output :
  suitable ed = true -> settings_get ed = false ->
  blame_outcome env (file_name ed) = Ret output ->
  Exists (fun l => ~ matches_grammar l) (splitlines output) ->
  run env (Command (self_pattern compiled)) ed =
    (Command (self_pattern true), blamed env ed, Raise AttributeError).
Proof.
  intros Hs Hd Hout Hex. rewrite (run_blamed env _ ed Hs Hd), Hout. cbn [pattern].
  pose proof (parse_lines_pattern compiled (splitlines output)) as Hpat.
  pose proof (parse_lines_raises compiled (splitlines output) Hex) as Hr.
  destruct (parse_lines (self_pattern compiled) (splitlines output)) as [pat r].
  cbn [fst snd] in *. subst r pat.
  destruct (splitlines output); [inversion Hex | reflexivity].
Qed.

Lemma run_on_empty env self ed output :
  suitable ed = true -> settings_get ed = false ->
  blame_outcome env (file_name ed) = Ret output ->
  splitlines output = [] ->
  run env self ed =
    (self, communicate_error (ReportMsg parse_failure) (blamed env ed), Ret tt).
Proof.
  intros Hs Hd Hout Hl. rewrite (run_blamed env _ ed Hs Hd), Hout, Hl.
  destruct self. reflexivity.
Qed.

Lemma run_on_failure env self ed e :
  suitable ed = true -> settings_get ed = false ->
  blame_outcome env (file_name ed) = Raise e ->
  run env self ed = (self, communicate_error (ReportExn e) (blamed env ed), Ret tt).
Proof.
  intros Hs Hd Hout. rewrite (run_blamed env _ ed Hs Hd), Hout. reflexivity.
Qed.

Lemma run_on_displayed env self ed :
  suitable ed = true -> settings_get ed = true ->
  run env self ed = (self, settings_set false (erase_phantoms ed), Ret tt).
Proof.
  intros Hs Hd. unfold run, view_is_suitable. rewrite Hs. cbn [negb].
  replace (settings_get (erase_phantoms ed)) with true by (symmetry; exact Hd).
  reflexivity.
Qed.

Lemma run_on_unsuitable env self ed :
  suitable ed = false -> run env self ed = (self, ed, Ret tt).
Proof. intros Hs. unfold run, view_is_suitable. rewrite Hs. reflexivity. Qed.

Lemma splitlines_from_nil s : forall cur, splitlines_from cur s = [] -> s = [] /\ cur = [].
Proof.
  induction s as [|a s IH]; intros cur H; simpl in H.
  - destruct cur; [auto | discriminate].
  - destruct (is_linebreak a); [discriminate|].
    apply IH in H. destruct H as [_ H]. discriminate.
Qed.

Lemma splitlines_nil s : splitlines s = [] <-> s = [].
Proof.
  split.
  - intros H. apply splitlines_from_nil in H. tauto.
  - intros ->. reflexivity.
Qed.

Lemma scenario_a_matches : matches_grammar scenario_a.
Proof. do 2 eexists. exact scenario_a_grammar. Qed.

Lemma scenario_b_matches : matches_grammar scenario_b.
Proof.
  exists scenario_b_fields, (lit "int x;").
  exists (lit " "), (lit " "), (lit " "), (lit " "), (lit " "), (lit " ").
  repeat split.
Qed.

Lemma scenario_c_mismatch : ~ matches_grammar scenario_c.
Proof.
  intros Hg. apply re_match_complete in Hg. apply Hg. vm_compute. reflexivity.
Qed.



(** X5.  When the view is suitable and the flag is unset, one line of the
    blame output that does not match the grammar, wherever it stands,
    makes [run] end with an [AttributeError]: no phantom is shown, the
    flag is left as it was and no error is reported, although the
    subprocess has run. *)
Theorem run_raises_on_mismatch
    (env : environment) (compiled : bool) (ed : editor) (output : str) :
  suitable ed = true -> settings_get ed = false ->
  blame_outcome env (file_name ed) = Ret output ->
  Exists (fun l => ~ matches_grammar l) (splitlines output) ->
  exists self' ed',
    run env (Command (self_pattern compiled)) ed = (self', ed', Raise AttributeError) /\
    phantoms ed' = [] /\ displayed ed' = displayed ed /\ errors ed' = errors ed /\
    calls ed' = (blame_command env (file_name ed), blame_cwd env (file_name ed)) :: calls ed.
Proof.
  intros Hs Hd Hout Hex.
  do 2 eexists. split; [exact (run_on_mismatch env compiled ed output Hs Hd Hout Hex)|].
  cbn. auto.
Qed.

Lemma run_raises_on_mismatch_witness :
  let output := scenario_a ++ ["010"%char] ++ scenario_c in
  suitable sample_editor = true /\ settings_get sample_editor = false /\
  blame_outcome (sample_env None (Ret output)) (file_name sample_editor) = Ret output /\
  Exists (fun l => ~ matches_grammar l) (splitlines output) /\
  exists self' ed',
    run (sample_env None (Ret output)) (Command (self_pattern false)) sample_editor
      = (self', ed', Raise AttributeError) /\
    phantoms ed' = [] /\ displayed ed' = displayed sample_editor /\
    errors ed' = errors sample_editor /\
    calls ed' =
      (blame_command (sample_env None (Ret output)) (file_name sample_editor),
       blame_cwd (sample_env None (Ret output)) (file_name sample_editor))
      :: calls sample_editor.
Proof.
  intros output.
  assert (Hl : splitlines output = [scenario_a; scenario_c]) by (vm_compute; reflexivity).
  assert (Hex : Exists (fun l => ~ matches_grammar l) (splitlines output)).
  { rewrite Hl. apply Exists_cons_tl, Exists_cons_hd. exact scenario_c_mismatch. }
  repeat (split; [first [reflexivity | exact Hex]|]).
  apply (run_raises_on_mismatch (sample_env None (Ret output)) false sample_editor output);
    first [reflexivity | exact Hex].
Defined.

Lemma cons_neq {A : Type} (a : A) (l : list A) : l <> a :: l.
Proof.
  intros E. apply (f_equal (@length A)) in E. simpl in E. lia.
Qed.

(** X6.  When the view is suitable, the flag is unset and the subprocess
    succeeds, the "Failed to parse anything" message is reported exactly
    when the blame output is the empty string. *)
Theorem parse_failure_only_on_empty_output
    (env : environment) (compiled : bool) (ed : editor) (output : str) :
  suitable ed = true -> settings_get ed = false ->
  blame_outcome env (file_name ed) = Ret output ->
  (errors (snd (fst (run env (Command (self_pattern compiled)) ed)))
     = ReportMsg parse_failure :: errors ed
   <-> output = []).
Proof.
  intros Hs Hd Hout. split.
  - intros H. destruct (splitlines output) as [|l ls] eqn:Hl;
      [apply splitlines_nil; exact Hl|]. exfalso.
    assert (Hne : splitlines output <> []) by (rewrite Hl; discriminate).
    clear Hl.
    destruct (lines_cases (splitlines output)) as [Hall|Hex].
    + destruct (run_on_matching env compiled ed output Hs Hd Hout Hne Hall) as (ps & Hrun & _).
      rewrite Hrun in H. cbn in H. revert H. apply cons_neq.
    + rewrite (run_on_mismatch env compiled ed output Hs Hd Hout Hex) in H.
      cbn in H. revert H. apply cons_neq.
  - intros ->. rewrite (run_on_empty env _ ed [] Hs Hd Hout); reflexivity.
Qed.

Lemma parse_failure_only_on_empty_output_witness :
  suitable sample_editor = true /\ settings_get sample_editor = false /\
  blame_outcome (sample_env None (Ret [])) (file_name sample_editor) = Ret [] /\
  (errors (snd (fst (run (sample_env None (Ret [])) (Command (self_pattern false))
                       sample_editor)))
     = ReportMsg parse_failure :: errors sample_editor
   <-> @nil ascii = []).
Proof.
  repeat (split; [reflexivity|]).
  apply (parse_failure_only_on_empty_output (sample_env None (Ret [])) false
           sample_editor []); reflexivity.
Defined.

(** X7.  The only exception that escapes [run] is the [AttributeError] of
    [parse_blame]: it escapes only on a suitable view with the flag unset,
    after the subprocess succeeded with output that holds a line which
    does not match the grammar.  A failing subprocess, a missing key or a
    malformed line number never make [run] raise. *)
Theorem run_escapes_only_attribute_error
    (env : environment) (compiled : bool) (ed : editor) (e : exn) :
  snd (run env (Command (self_pattern compiled)) ed) = Raise e ->
  e = AttributeError /\ suitable ed = true /\ settings_get ed = false /\
  exists output, blame_outcome env (file_name ed) = Ret output /\
    Exists (fun l => ~ matches_grammar l) (splitlines output).
Proof.
  intros H.
  destruct (suitable ed) eqn:Hs;
    [|rewrite (run_on_unsuitable env _ ed Hs) in H; discriminate].
  destruct (settings_get ed) eqn:Hd;
    [rewrite (run_on_displayed env _ ed Hs Hd) in H; discriminate|].
  destruct (blame_outcome env (file_name ed)) as [output|e'] eqn:Hout;
    [|rewrite (run_on_failure env _ ed e' Hs Hd Hout) in H; discriminate].
  destruct (splitlines output) as [|l ls] eqn:Hl;
    [rewrite (run_on_empty env _ ed output Hs Hd Hout Hl) in H; discriminate|].
  assert (Hne : splitlines output <> []) by (rewrite Hl; discriminate).
  clear Hl.
  destruct (lines_cases (splitlines output)) as [Hall|Hex].
  - destruct (run_on_matching env compiled ed output Hs Hd Hout Hne Hall) as (ps & Hrun & _).
    rewrite Hrun in H. discriminate.
  - rewrite (run_on_mismatch env compiled ed output Hs Hd Hout Hex) in H.
    injection H as <-. repeat split. exists output. split; [reflexivity | exact Hex].
Qed.

Lemma run_escapes_only_attribute_error_witness :
  snd (run (sample_env None (Ret scenario_c)) (Command (self_pattern false)) sample_editor)
    = Raise AttributeError /\
  AttributeError = AttributeError /\ suitable sample_editor = true /\
  settings_get sample_editor = false /\
  exists output,
    blame_outcome (sample_env None (Ret scenario_c)) (file_name sample_editor) = Ret output /\
    Exists (fun l => ~ matches_grammar l) (splitlines output).
Proof.
  split; [vm_compute; reflexivity|].
  apply (run_escapes_only_attribute_error (sample_env None (Ret scenario_c)) false
           sample_editor AttributeError).
  vm_compute. reflexivity.
Defined.

Lemma run_calls env self ed :
  calls (snd (fst (run env self ed))) =
  (if suitable ed && negb (settings_get ed)
   then [(blame_command env (file_name ed), blame_cwd env (file_name ed))]
   else []) ++ calls ed.
Proof.
  destruct (suitable ed) eqn:Hs;
    [|rewrite (run_on_unsuitable env _ ed Hs); reflexivity].
  destruct (settings_get ed) eqn:Hd;
    [rewrite (run_on_displayed env _ ed Hs Hd); reflexivity|].
  rewrite (run_blamed env self ed Hs Hd).
  destruct (blame_outcome env (file_name ed)) as [output|e]; [|reflexivity].
  destruct (parse_lines (pattern self) (splitlines output)) as [pat [blames|e]];
    [|reflexivity].
  destruct (filter truthy blames); [reflexivity|].
  destruct (make_phantoms _); reflexivity.
Qed.

(** X8.  Whatever the state and the outcome, [run] runs the subprocess at
    most once, and exactly once when the view is suitable and the flag is
    unset, with the blame command of the view's file; it never changes the
    file name, the suitability of the view or the status messages. *)
Theorem run_frame (env : environment) (self : command) (ed : editor) :
  let ed' := snd (fst (run env self ed)) in
  calls ed' =
    (if suitable ed && negb (settings_get ed)
     then [(blame_command env (file_name ed), blame_cwd env (file_name ed))]
     else []) ++ calls ed /\
  file_name ed' = file_name ed /\ suitable ed' = suitable ed /\
  status ed' = status ed.
Proof.
  split; [apply run_calls|].
  destruct (suitable ed) eqn:Hs;
    [|rewrite (run_on_unsuitable env _ ed Hs); cbn; auto].
  destruct (settings_get ed) eqn:Hd;
    [rewrite (run_on_displayed env _ ed Hs Hd); cbn; auto|].
  rewrite (run_blamed env self ed Hs Hd).
  destruct (blame_outcome env (file_name ed)) as [output|e]; [|cbn; auto].
  destruct (parse_lines (pattern self) (splitlines output)) as [pat [blames|e]];
    [|cbn; auto].
  destruct (filter truthy blames); [cbn; auto|].
  destruct (make_phantoms _); cbn; auto.
Qed.

(** ** Sessions *)

Lemma command_eta (self : command) : self = Command (pattern self).
Proof. destruct self. reflexivity. Qed.

Lemma run_consistent env s :
  consistent s -> consistent (fst (run env (fst s) (snd s))).
Proof.
  destruct s as [self ed]. intros (Hph & compiled & Hpat). cbn [fst snd] in *.
  rewrite (command_eta self), Hpat.
  destruct (suitable ed) eqn:Hs.
  2:{ rewrite (run_on_unsuitable env _ ed Hs). split; [exact Hph|]. exists compiled. reflexivity. }
  destruct (settings_get ed) eqn:Hd.
  { rewrite (run_on_displayed env _ ed Hs Hd). split; [intros H; exfalso; apply H; reflexivity|].
    exists compiled. reflexivity. }
  destruct (blame_outcome env (file_name ed)) as [output|e] eqn:Hout.
  2:{ rewrite (run_on_failure env _ ed e Hs Hd Hout).
      split; [intros H; exfalso; apply H; reflexivity|]. exists compiled. reflexivity. }
  destruct (splitlines output) as [|l ls] eqn:Hl.
  { rewrite (run_on_empty env _ ed output Hs Hd Hout Hl).
    split; [intros H; exfalso; apply H; reflexivity|]. exists compiled. reflexivity. }
  assert (Hne : splitlines output <> []) by (rewrite Hl; discriminate). clear Hl.
  destruct (lines_cases (splitlines output)) as [Hall|Hex].
  - destruct (run_on_matching env compiled ed output Hs Hd Hout Hne Hall) as (ps & Hrun & _).
    rewrite Hrun. split; [reflexivity|]. exists true. reflexivity.
  - rewrite (run_on_mismatch env compiled ed output Hs Hd Hout Hex).
    split; [intros H; exfalso; apply H; reflexivity|]. exists true. reflexivity.
Qed.

Lemma handle_consistent s ev : consistent s -> consistent (handle s ev).
Proof.
  destruct ev as [env| |href|]; [apply run_consistent | | |];
    destruct s as [self ed]; intros (Hph & Hpat); cbn [handle fst snd] in *;
    (split; [|exact Hpat]).
  - intros H. exfalso. apply H. reflexivity.
  - unfold on_phantom_close. destruct (list_eq_dec ascii_dec href (lit "close"));
      [intros H; exfalso; apply H; reflexivity | exact Hph].
  - unfold buffer_modified.
    destruct (BlameEraseAllListener.is_applicable ed);
      [intros H; exfalso; apply H; reflexivity | exact Hph].
Qed.

(** X9.  Through any sequence of show commands (in any environments),
    erase commands, clicks on phantom links and buffer modifications, a
    view never shows phantoms while its flag is unset, and the command
    object never holds a pattern other than the blame pattern. *)
Theorem session_consistent (evs : list event) (s : command * editor) :
  consistent s -> consistent (session evs s).
Proof.
  unfold session. revert s. induction evs as [|ev evs IH]; intros s Hs; [exact Hs|].
  cbn [fold_left]. apply IH, handle_consistent, Hs.
Qed.

Lemma fresh_consistent : consistent (fresh_command, sample_editor).
Proof.
  split; [intros H; exfalso; apply H; reflexivity | exists false; reflexivity].
Qed.

Lemma session_consistent_witness :
  consistent (fresh_command, sample_editor) /\
  consistent
    (session [Show (sample_env None (Ret two_lines)); Close (lit "close");
              Show (sample_env None (Ret scenario_c)); Modified; Erase]
       (fresh_command, sample_editor)).
Proof.
  split; [exact fresh_consistent|].
  apply (session_consistent
           [Show (sample_env None (Ret two_lines)); Close (lit "close");
            Show (sample_env None (Ret scenario_c)); Modified; Erase]
           (fresh_command, sample_editor)).
  exact fresh_consistent.
Defined.

(** X10.  The command toggles: on a suitable view with the flag unset and
    blame output whose lines all match, a second run, whatever the
    subprocess would then give, removes the phantoms and sets the flag to
    false; over the two runs the subprocess has run once. *)
Theorem show_twice_hides
    (env env' : environment) (compiled : bool) (ed : editor) (output : str) :
  suitable ed = true -> settings_get ed = false ->
  blame_outcome env (file_name ed) = Ret output ->
  splitlines output <> [] -> Forall matches_grammar (splitlines output) ->
  let s := session [Show env; Show env'] (Command (self_pattern compiled), ed) in
  phantoms (snd s) = [] /\ displayed (snd s) = Some false /\
  calls (snd s) =
    (blame_command env (file_name ed), blame_cwd env (file_name ed)) :: calls ed.
Proof.
  intros Hs Hd Hout Hne Hall.
  destruct (run_on_matching env compiled ed output Hs Hd Hout Hne Hall) as (ps & Hrun & _).
  cbn [session fold_left handle fst snd]. rewrite Hrun. cbn [fst snd].
  rewrite run_on_displayed; [cbn; auto | exact Hs | reflexivity].
Qed.

Lemma show_twice_hides_witness :
  suitable sample_editor = true /\ settings_get sample_editor = false /\
  blame_outcome (sample_env None (Ret two_lines)) (file_name sample_editor) = Ret two_lines /\
  splitlines two_lines <> [] /\ Forall matches_grammar (splitlines two_lines) /\
  let s := session [Show (sample_env None (Ret two_lines));
                    Show (sample_env None (Ret scenario_c))]
             (Command (self_pattern false), sample_editor) in
  phantoms (snd s) = [] /\ displayed (snd s) = Some false /\
  calls (snd s) =
    (blame_command (sample_env None (Ret two_lines)) (file_name sample_editor),
     blame_cwd (sample_env None (Ret two_lines)) (file_name sample_editor))
    :: calls sample_editor.
Proof.
  assert (Hl : splitlines two_lines = [scenario_a; scenario_b]) by (vm_compute; reflexivity).
  assert (Hall : Forall matches_grammar (splitlines two_lines)).
  { rewrite Hl. repeat constructor; [exact scenario_a_matches | exact scenario_b_matches]. }
  assert (Hne : splitlines two_lines <> []) by (rewrite Hl; discriminate).
  repeat (split; [first [reflexivity | exact Hne | exact Hall]|]).
  apply (show_twice_hides (sample_env None (Ret two_lines))
           (sample_env None (Ret scenario_c)) false sample_editor two_lines);
    first [reflexivity | exact Hne | exact Hall].
Defined.

Lemma buffer_modified_frame ed :
  file_name (buffer_modified ed) = file_name ed /\
  suitable (buffer_modified ed) = suitable ed /\
  calls (buffer_modified ed) = calls ed.
Proof.
  unfold buffer_modified. destruct (BlameEraseAllListener.is_applicable ed); repeat split.
Qed.

(** X11.  After a modification of the buffer, the next show command on a
    suitable view always blames afresh: it runs the subprocess with the
    blame command of the file, whether or not annotations were displayed
    before the modification. *)
Theorem show_after_modification_blames
    (env : environment) (self : command) (ed : editor) :
  suitable ed = true ->
  calls (snd (session [Modified; Show env] (self, ed))) =
    (blame_command env (file_name ed), blame_cwd env (file_name ed)) :: calls ed.
Proof.
  intros Hs. cbn [session fold_left handle fst snd]. rewrite run_calls.
  destruct (buffer_modified_frame ed) as (Hf & Hsu & Hc).
  rewrite Hf, Hsu, Hc, Hs, modification_unsets_flag. reflexivity.
Qed.

Lemma show_after_modification_blames_witness :
  suitable displaying_editor = true /\
  calls (snd (session [Modified; Show (sample_env None (Ret two_lines))]
                (fresh_command, displaying_editor))) =
    (blame_command (sample_env None (Ret two_lines)) (file_name displaying_editor),
     blame_cwd (sample_env None (Ret two_lines)) (file_name displaying_editor))
    :: calls displaying_editor.
Proof.
  split; [reflexivity|].
  apply (show_after_modification_blames (sample_env None (Ret two_lines)) fresh_command
           displaying_editor).
  reflexivity.
Defined.

(** X12.  Once the phantoms were erased by the erase command (or by a
    click on the close link), the flag is still set: on a suitable view
    the next show command only resets the flag, without running the
    subprocess, and it takes one more show command to blame again. *)
Theorem show_after_erase_only_resets
    (env env' : environment) (self : command) (ed : editor) :
  suitable ed = true -> settings_get ed = true ->
  let s1 := session [Erase; Show env] (self, ed) in
  let s2 := session [Erase; Show env; Show env'] (self, ed) in
  fst s1 = self /\ phantoms (snd s1) = [] /\ displayed (snd s1) = Some false /\
  calls (snd s1) = calls ed /\
  session [Close (lit "close"); Show env] (self, ed) = s1 /\
  calls (snd s2) =
    (blame_command env' (file_name ed), blame_cwd env' (file_name ed)) :: calls ed.
Proof.
  intros Hs Hd. cbn [session fold_left handle fst snd].
  assert (Hc : on_phantom_close (lit "close") ed = BlameEraseAll.run ed) by reflexivity.
  rewrite Hc.
  rewrite (run_on_displayed env self (BlameEraseAll.run ed)) by assumption.
  cbn [fst snd]. repeat split. rewrite run_calls. cbn. rewrite Hs. reflexivity.
Qed.

Lemma show_after_erase_only_resets_witness :
  suitable displaying_editor = true /\ settings_get displaying_editor = true /\
  let s1 := session [Erase; Show (sample_env None (Ret two_lines))]
              (fresh_command, displaying_editor) in
  let s2 := session [Erase; Show (sample_env None (Ret two_lines));
                     Show (sample_env None (Ret scenario_a))]
              (fresh_command, displaying_editor) in
  fst s1 = fresh_command /\ phantoms (snd s1) = [] /\ displayed (snd s1) = Some false /\
  calls (snd s1) = calls displaying_editor /\
  session [Close (lit "close"); Show (sample_env None (Ret two_lines))]
    (fresh_command, displaying_editor) = s1 /\
  calls (snd s2) =
    (blame_command (sample_env None (Ret scenario_a)) (file_name displaying_editor),
     blame_cwd (sample_env None (Ret scenario_a)) (file_name displaying_editor))
    :: calls displaying_editor.
Proof.
  split; [reflexivity|]. split; [reflexivity|].
  apply (show_after_erase_only_resets (sample_env None (Ret two_lines))
           (sample_env None (Ret scenario_a)) fresh_command displaying_editor);
    reflexivity.
Defined.

(** * Further properties of the mapper *)

Lemma digit_zero a : is_digit a = true -> (digit_value a = 0%Z <-> is_char "0" a = true).
Proof.
  intros Ha. unfold digit_value, is_char. rewrite Ascii.eqb_eq. split.
  - intros H. rewrite <- (ascii_N_embedding a). unfold code in H.
    replace (N_of_ascii a) with 48%N by lia. reflexivity.
  - intros ->. reflexivity.
Qed.

Lemma fold_digits_zero s : forall n,
  forallb is_digit s = true -> (0 <= n)%Z ->
  (fold_left (fun n a => (10 * n + digit_value a)%Z) s n = 0%Z <->
   n = 0%Z /\ forallb (is_char "0") s = true).
Proof.
  induction s as [|a s IH]; intros n Hs Hn; cbn [fold_left forallb] in *.
  - tauto.
  - apply andb_true_iff in Hs. destruct Hs as [Ha Hs].
    pose proof (digit_value_range a Ha) as Hr.
    rewrite (IH (10 * n + digit_value a)%Z Hs) by lia.
    rewrite andb_true_iff, <- (digit_zero a Ha). intuition lia.
Qed.

(** X13.  The row handed to the host for a parsed record is never below
    -1, and it is -1, a row no buffer has, exactly when the line number is
    written with zeros only, which the pattern accepts. *)
Theorem row_at_least_minus_one (max_len : Z) (f : fields) :
  well_formed f = true ->
  exists p, make_phantom max_len (groupdict_of f) = Ret p /\
    (-1 <= ph_line p)%Z /\
    (ph_line p = (-1)%Z <-> forallb (is_char "0") (f_line_number f) = true).
Proof.
  intros Hf. pose proof (well_formed_line_number f Hf) as Hln.
  destruct (py_int_digits _ Hln) as (Hint & Hpos).
  eexists. split; [apply (make_phantom_eq max_len f _ Hint)|].
  cbn [ph_line]. split; [lia|].
  pose proof (fold_digits_zero (f_line_number f) 0%Z (run_of_forallb _ _ Hln)
                (Z.le_refl 0)) as Hz.
  fold (decimal (f_line_number f)) in Hz.
  split.
  - intros H. apply Hz. lia.
  - intros H. assert (decimal (f_line_number f) = 0%Z) by (apply Hz; auto). lia.
Qed.

Lemma row_at_least_minus_one_witness :
  well_formed (Fields (lit "abc1234") (lit "f.py") (lit "Al") (lit "2021-05-01")
                 (lit "10:00:00") (lit "+0000") (lit "00")) = true /\
  exists p,
    make_phantom 2
      (groupdict_of (Fields (lit "abc1234") (lit "f.py") (lit "Al") (lit "2021-05-01")
                       (lit "10:00:00") (lit "+0000") (lit "00"))) = Ret p /\
    (-1 <= ph_line p)%Z /\
    (ph_line p = (-1)%Z <-> forallb (is_char "0") (lit "00") = true).
Proof.
  split; [reflexivity|].
  apply (row_at_least_minus_one 2
           (Fields (lit "abc1234") (lit "f.py") (lit "Al") (lit "2021-05-01")
              (lit "10:00:00") (lit "+0000") (lit "00"))).
  reflexivity.
Defined.
